(** * compare.py: comparing two mesh files up to the order of their cells

    A shallow embedding of [src/python/compare.py] and the properties of its
    behaviour.

    - HDF5 objects are a tree of groups and typed datasets; float64 values
      are kept as their 64-bit patterns, which is what [tobytes] exposes, and
      decoded to [spec_float] (IEEE 754 binary64) for arithmetic and
      comparison.  Field datasets are one-dimensional (one scalar per cell).
    - Python exceptions are an error type; [print], [sys.exit] and opening a
      file are events of a small process monad.
    - [np.argsort] is library code: the comparator is parameterised by it and
      the properties that depend on the order rely on its contract only (it
      returns a permutation of the positions that sorts the keys).  The
      instance [argsort_ms] is a merge sort. *)

From Stdlib Require Import ZArith Lia.
From Corelib Require Import SpecFloat PrimFloat FloatOps.
From stdpp Require Import base tactics option list list_numbers sorting strings pretty.

Set Warnings "-register-all".
Local Open Scope Z_scope.

(** ** IEEE 754 binary64 values *)

Module F64.

(** A float64 value is its bit pattern, [0 <= b < 2^64]. *)
Definition t := Z.

Definition sign_bit (b : t) : bool := Z.testbit b 63.
Definition biased_exp (b : t) : Z := Z.land (Z.shiftr b 52) 2047.
Definition fraction (b : t) : Z := Z.land b (Z.ones 52).

(** The value a bit pattern stands for. *)
Definition decode (b : t) : spec_float :=
  let s := sign_bit b in
  let e := biased_exp b in
  let m := fraction b in
  if e =? 0 then
    if m =? 0 then S754_zero s else S754_finite s (Z.to_pos m) (-1074)
  else if e =? 2047 then
    if m =? 0 then S754_infinity s else S754_nan
  else S754_finite s (Z.to_pos (m + 2 ^ 52)) (e - 1075).

Definition is_nan (b : t) : bool :=
  match decode b with S754_nan => true | _ => false end.

(** [a - b], [abs], [>] and [!=] of numpy on float64. *)
Definition sub (a b : t) : spec_float := SFsub prec emax (decode a) (decode b).
Definition gt (x y : spec_float) : bool := SFltb y x.
Definition ne (a b : t) : bool := negb (SFeqb (decode a) (decode b)).

(** [tobytes] of one element: eight bytes, least significant first. *)
Definition byte_at (b : t) (k : nat) : Z := Z.land (Z.shiftr b (8 * Z.of_nat k)) 255.
Definition tobytes (b : t) : list Z := byte_at b <$> seq 0 8.

(** Some values, by their bit patterns. *)
Definition zero : t := 0x0000000000000000.
Definition one : t := 0x3ff0000000000000.
Definition two : t := 0x4000000000000000.
Definition three : t := 0x4008000000000000.
Definition nan : t := 0x7ff8000000000000.
Definition e_14 : t := 0x3d06849b86a12b9b.      (* 1e-14 *)
Definition e_13 : t := 0x3d3c25c268497682.      (* 1e-13 *)
Definition one_plus_2e_14 : t := 0x3ff000000000005a.  (* 1.0 + 2e-14 *)

End F64.

(** [tol = 1e-14], as the float64 nearest to the literal. *)
Definition tol : spec_float := Eval vm_compute in F64.decode F64.e_14.

(** ** Byte strings as sort keys *)

(** Order of two byte strings of an array of dtype [S]: bytewise, unsigned. *)
Fixpoint bytes_compare (a b : list Z) : comparison :=
  match a, b with
  | [], [] => Eq
  | [], _ :: _ => Lt
  | _ :: _, [] => Gt
  | x :: a', y :: b' =>
      match x ?= y with
      | Eq => bytes_compare a' b'
      | c => c
      end
  end.

Definition bytes_le (a b : list Z) : Prop := bytes_compare a b ≠ Gt.

(** ** Python exceptions and results *)

Inductive exn : Type :=
| OSError
| KeyError (k : string)
| IndexError
| ValueError
| TypeError.

Inductive result (A : Type) : Type :=
| Ok (a : A)
| Raise (e : exn).
Arguments Ok {A} a.
Arguments Raise {A} e.

Definition rbind {A B} (m : result A) (k : A → result B) : result B :=
  match m with
  | Ok a => k a
  | Raise e => Raise e
  end.

Global Instance result_ret : MRet result := @Ok.
Global Instance result_bind : MBind result := λ A B k m, rbind m k.

Section result_list.
Context {A B : Type}.

(** A list comprehension whose element expression may raise. *)
Fixpoint rmap (f : A → result B) (l : list A) : result (list B) :=
  match l with
  | [] => Ok []
  | x :: l' =>
      match f x with
      | Ok y => match rmap f l' with Ok ys => Ok (y :: ys) | Raise e => Raise e end
      | Raise e => Raise e
      end
  end.

(** A [for] loop threading an accumulator, stopped by the first exception. *)
Fixpoint rfold (f : B → A → result B) (acc : B) (l : list A) : result B :=
  match l with
  | [] => Ok acc
  | x :: l' =>
      match f acc x with
      | Ok acc' => rfold f acc' l'
      | Raise e => Raise e
      end
  end.
End result_list.

(** ** HDF5 objects, as h5py presents them *)

Inductive h5obj : Type :=
| FloatData1 (vals : list F64.t)
| FloatData2 (ncols : nat) (rows : list (list F64.t))
| IntData2 (ncols : nat) (rows : list (list Z))
| Group (members : list (string * h5obj)).

(** The first entry under a name: of a group's members or of a dict's items. *)
Fixpoint assoc {V : Type} (k : string) (l : list (string * V)) : option V :=
  match l with
  | [] => None
  | (k', v) :: l' => if decide (k = k') then Some v else assoc k l'
  end.

(** [o.keys()] *)
Definition keys (o : h5obj) : result (list string) :=
  match o with
  | Group ms => Ok (ms.*1)
  | _ => Raise TypeError
  end.

(** [o[k]] *)
Definition getitem (o : h5obj) (k : string) : result h5obj :=
  match o with
  | Group ms =>
      match assoc k ms with
      | Some v => Ok v
      | None => Raise (KeyError k)
      end
  | _ => Raise TypeError
  end.

(** [k in o] *)
Definition contains (o : h5obj) (k : string) : result bool :=
  ks ← keys o; Ok (bool_decide (k ∈ ks)).

(** [d[:]] of a dataset, by the kind of array the code uses it as.  The
    values of a field are read as a sequence of scalars, one per cell; what
    numpy's broadcasting does with a field of per-cell vectors is not
    modelled, and the statements on field values are for fields of
    scalars. *)
Definition read_float1 (o : h5obj) : result (list F64.t) :=
  match o with FloatData1 v => Ok v | _ => Raise TypeError end.
Definition read_float2 (o : h5obj) : result (nat * list (list F64.t)) :=
  match o with FloatData2 d rows => Ok (d, rows) | _ => Raise TypeError end.
Definition read_int2 (o : h5obj) : result (nat * list (list Z)) :=
  match o with IntData2 w rows => Ok (w, rows) | _ => Raise TypeError end.

(** ** numpy arrays and indexing *)

(** The Cell Array: [shape = (len cells, nvert, dim)]. *)
Record cell_array : Type := CellArray {
  nvert : nat;
  dim : nat;
  cells : list (list (list F64.t))
}.

Definition shape (c : cell_array) : nat * nat * nat :=
  (length (cells c), nvert c, dim c).

(** [a[i]] for a Python integer: negative positions count from the end.
    The index is a signed integer as it stands; the cast of an unsigned
    64-bit entry from 2^63 on is not modelled. *)
Definition np_index {A : Type} (a : list A) (i : Z) : result A :=
  let n := Z.of_nat (length a) in
  let j := if i <? 0 then n + i else i in
  if (0 <=? j) && (j <? n) then
    match a !! Z.to_nat j with
    | Some x => Ok x
    | None => Raise IndexError
    end
  else Raise IndexError.

(** [a[idx]] for an array [idx] of positions, such as [argsort] returns. *)
Definition take {A : Type} (a : list A) (idx : list nat) : result (list A) :=
  rmap (λ i, match a !! i with Some x => Ok x | None => Raise IndexError end) idx.

(** [points[:][conn[:]]] *)
Definition gather (points conn : h5obj) : result cell_array :=
  '(d, prows) ← read_float2 points;
  '(w, crows) ← read_int2 conn;
  cs ← rmap (rmap (np_index prows)) crows;
  Ok (CellArray w d cs).

(** [np.concatenate((a, b))] along the first axis. *)
Definition concatenate (a b : cell_array) : result cell_array :=
  if bool_decide (nvert a = nvert b ∧ dim a = dim b) then
    Ok (CellArray (nvert a) (dim a) (cells a ++ cells b))
  else Raise ValueError.

(** [np.any(x != y)] and the like, on arrays of one shape. *)
Definition any2 {A : Type} (f : A → A → bool) (x y : list A) : bool :=
  existsb id (zip_with f x y).

(** [np.where(mask)] for a one-dimensional mask. *)
Definition where_ (mask : list bool) : list nat :=
  (filter (λ p, p.2 = true) (zip (seq 0 (length mask)) mask)).*1.

(** [c.tobytes()] for one cell. *)
Definition cell_tobytes (c : list (list F64.t)) : list Z :=
  row ← c; x ← row; F64.tobytes x.

(** ** Python dicts of arrays, in insertion order *)

Definition dict : Type := list (string * list F64.t).

(** [d[k] = v] *)
Fixpoint dict_set (d : dict) (k : string) (v : list F64.t) : dict :=
  match d with
  | [] => [(k, v)]
  | (k', v') :: d' =>
      if decide (k = k') then (k, v) :: d' else (k', v') :: dict_set d' k v
  end.

(** A dict seen through the operations shared with a group. *)
Definition dict_obj (d : dict) : h5obj :=
  Group (prod_map id FloatData1 <$> d).

(** ** The Mesh Assembler *)

Definition construct_cells (mesh : h5obj) : result (option cell_array) :=
  ks ← keys mesh;
  if bool_decide ("points" ∈ ks) then
    points ← getitem mesh "points";
    conn ← getitem mesh "connectivity";
    c ← gather points conn;
    Ok (Some c)
  else
    rfold (λ output k,
      blk ← getitem mesh k;
      points ← getitem blk "points";
      conn ← getitem blk "connectivity";
      match output with
      | None => c ← gather points conn; Ok (Some c)
      | Some out => new ← gather points conn; c ← concatenate out new; Ok (Some c)
      end) None ks.

(** The inner loop of [construct_fields]: the fields of one sub-Block. *)
Definition accumulate_fields (fg : h5obj) (output : dict) (fs : list string) : result dict :=
  rfold (λ output f,
    match assoc f output with
    | None =>
        d ← getitem fg f; vals ← read_float1 d;
        Ok (dict_set output f vals)
    | Some old =>
        d ← getitem fg f; vals ← read_float1 d;
        Ok (dict_set output f (old ++ vals))
    end) output fs.

Definition construct_fields (mesh : h5obj) : result h5obj :=
  ks ← keys mesh;
  if bool_decide ("points" ∈ ks) then
    if bool_decide ("fields" ∉ ks) then Ok (dict_obj [])
    else getitem mesh "fields"
  else
    output ← rfold (λ output k,
      blk ← getitem mesh k;
      has ← contains blk "fields";
      if has : bool then
        fg ← getitem blk "fields";
        fs ← keys fg;
        accumulate_fields fg output fs
      else Ok output) [] ks;
    Ok (dict_obj output).

(** ** Processes: output, files opened, and how a run ends *)

Inductive event : Type :=
| OpenFile (path : string)
| Print (line : string)
| PrintValues (a b : list F64.t) (diff : list spec_float)
| PrintCells (a b : list (list (list F64.t))).

Inductive halt : Type :=
| SysExit (msg : option string)
| Uncaught (e : exn).

Record proc (A : Type) : Type := Proc {
  trace : list event;
  outcome : halt + A
}.
Arguments Proc {A} trace outcome.
Arguments trace {A} p.
Arguments outcome {A} p.

(** [t] happened, then [p] runs. *)
Definition prefix {A : Type} (t : list event) (p : proc A) : proc A :=
  Proc (t ++ trace p) (outcome p).

Global Instance proc_ret : MRet proc := λ A a, Proc [] (inr a).
Global Instance proc_bind : MBind proc := λ A B k m,
  match outcome m with
  | inr a => prefix (trace m) (k a)
  | inl h => Proc (trace m) (inl h)
  end.

Definition emit (e : event) : proc unit := Proc [e] (inr tt).
Definition print (line : string) : proc unit := emit (Print line).
Definition sys_exit {A : Type} (msg : option string) : proc A := Proc [] (inl (SysExit msg)).
Definition lift {A : Type} (r : result A) : proc A :=
  match r with
  | Ok a => Proc [] (inr a)
  | Raise e => Proc [] (inl (Uncaught e))
  end.

(** The status the interpreter exits with. [sys.exit()] and a normal end give
    0; [sys.exit(message)] and an uncaught exception give 1. *)
Definition exit_status {A : Type} (o : halt + A) : Z :=
  match o with
  | inr _ => 0
  | inl (SysExit None) => 0
  | inl (SysExit (Some _)) => 1
  | inl (Uncaught _) => 1
  end.

(** A [for] loop over a process body. *)
Fixpoint for_each {A : Type} (l : list A) (body : A → proc unit) : proc unit :=
  match l with
  | [] => mret tt
  | x :: l' => body x ;; for_each l' body
  end.

(** The files the process can read: the root group of each path. *)
Definition filesystem : Type := string → option h5obj.

(** [h5py.File(path, "r")] *)
Definition h5py_File (fs : filesystem) (path : string) : proc h5obj :=
  emit (OpenFile path) ;;
  lift (match fs path with Some root => Ok root | None => Raise OSError end).

(** ** The Comparator *)

(** [abs(a - b) > tol] on two field values. *)
Definition absdiff (a b : F64.t) : spec_float := SFabs (F64.sub a b).
Definition exceeds (a b : F64.t) : bool := F64.gt (absdiff a b) tol.

(** [str(cells.shape)] *)
Definition shape_str (sh : nat * nat * nat) : string :=
  "(" +:+ pretty sh.1.1 +:+ ", " +:+ pretty sh.1.2 +:+ ", " +:+ pretty sh.2 +:+ ")".

Definition different_msg (file1 file2 : string) : string :=
  "files " +:+ file1 +:+ " and " +:+ file2 +:+ " are different".
Definition same_msg (file1 file2 : string) : string :=
  "files " +:+ file1 +:+ " and " +:+ file2 +:+ " are the same".

(** The parsed command line. *)
Record args : Type := Args {
  file1 : string;
  file2 : string;
  start : option Z;
  end_ : option Z
}.

(** [range(a, b)] *)
Definition range (a b : Z) : list Z := seqZ a (b - a).

Section comparator.
(** [np.argsort] on an array of byte strings. *)
Variable argsort : list (list Z) → list nat.

(** [np.argsort(np.asarray([c.tobytes() for c in cells]))]; iterating over
    [None] is a [TypeError]. *)
Definition sort_index (output : option cell_array) : result (list nat) :=
  match output with
  | Some c => Ok (argsort (cell_tobytes <$> cells c))
  | None => Raise TypeError
  end.

(** The body of the loop over the fields of the first file. *)
Definition check_field (file1 file2 : string) (cells1 cells2 : cell_array)
    (index1 index2 : list nat) (field1 field2 : h5obj) (field : string) : proc unit :=
  ks2 ← lift (keys field2);
  if bool_decide (field ∉ ks2) then
    print (field +:+ " is not in second file") ;;
    sys_exit (Some (different_msg file1 file2))
  else
    v1 ← lift (d ← getitem field1 field; a ← read_float1 d; take a index1);
    v2 ← lift (d ← getitem field2 field; a ← read_float1 d; take a index2);
    if any2 exceeds v1 v2 then
      let ind := where_ (zip_with exceeds v1 v2) in
      p1 ← lift (i ← take index1 ind; d ← getitem field1 field;
                  a ← read_float1 d; take a i);
      p2 ← lift (i ← take index2 ind; d ← getitem field2 field;
                  a ← read_float1 d; take a i);
      emit (PrintValues p1 p2 (zip_with absdiff p1 p2)) ;;
      c1 ← lift (i ← take index1 ind; take (cells cells1) i);
      c2 ← lift (i ← take index2 ind; take (cells cells2) i);
      emit (PrintCells c1 c2) ;;
      print (field +:+ " is not the same") ;;
      sys_exit None
    else mret tt.

Definition compare_meshes (fs : filesystem) (file1 file2 : string) : proc unit :=
  root1 ← h5py_File fs file1;
  mesh1 ← lift (getitem root1 "mesh");
  root2 ← h5py_File fs file2;
  mesh2 ← lift (getitem root2 "mesh");
  cells1 ← lift (construct_cells mesh1);
  cells2 ← lift (construct_cells mesh2);
  index1 ← lift (sort_index cells1);
  index2 ← lift (sort_index cells2);
  match cells1, cells2 with
  | Some cells1, Some cells2 =>
      if bool_decide (shape cells1 ≠ shape cells2) then
        print "shape are not compatibles" ;;
        print (shape_str (shape cells1) +:+ " vs " +:+ shape_str (shape cells2)) ;;
        sys_exit (Some (different_msg file1 file2))
      else
        s1 ← lift (take (cells cells1) index1);
        s2 ← lift (take (cells cells2) index2);
        if any2 (any2 (any2 F64.ne)) s1 s2 then
          print "cells are not the same" ;;
          sys_exit (Some (different_msg file1 file2))
        else
          field1 ← lift (construct_fields mesh1);
          field2 ← lift (construct_fields mesh2);
          ks1 ← lift (keys field1);
          for_each ks1
            (check_field file1 file2 cells1 cells2 index1 index2 field1 field2) ;;
          print (same_msg file1 file2)
  | _, _ => lift (Raise TypeError)
  end.

(** The module-level code after argument parsing. *)
Definition main (fs : filesystem) (a : args) : proc unit :=
  match start a, end_ a with
  | Some s, Some e =>
      for_each (range s (e + 1)) (λ i,
        compare_meshes fs (file1 a +:+ pretty i +:+ ".h5")
                          (file2 a +:+ pretty i +:+ ".h5"))
  | _, _ => compare_meshes fs (file1 a +:+ ".h5") (file2 a +:+ ".h5")
  end.
End comparator.

(** ** An instance of [np.argsort]: merge sort of the positions by key *)

Global Instance bytes_le_dec a b : Decision (bytes_le a b).
Proof. unfold bytes_le. apply _. Defined.

Definition argsort_ms (ks : list (list Z)) : list nat :=
  (merge_sort (λ x y : list Z * nat, bytes_le x.1 y.1) (zip ks (seq 0 (length ks)))).*2.

(** The contract of [np.argsort]: a permutation of the positions that puts
    the keys in non-decreasing order. *)
Definition argsort_spec (argsort : list (list Z) → list nat) : Prop :=
  ∀ ks : list (list Z),
    argsort ks ≡ₚ seq 0 (length ks) ∧
    Sorted bytes_le ((λ i, ks !!! i) <$> argsort ks).

(** ** Notions used in the statements *)


(** [b] is [a] reordered by [p]: [b = a[p]], with [p] a permutation of the
    positions of [a]. *)
Definition reordered {A : Type} (p : list nat) (a b : list A) : Prop :=
  p ≡ₚ seq 0 (length a) ∧ take a p = Ok b.

(** The field mapping [fl2] is [fl1] with every value sequence, one value
    per cell, reordered by [p]. *)
Definition fields_reordered (n : nat) (p : list nat) (fl1 fl2 : list (string * h5obj)) : Prop :=
  Forall2 (λ e1 e2, e1.1 = e2.1 ∧
             ∃ v1 v2, e1.2 = FloatData1 v1 ∧ e2.2 = FloatData1 v2 ∧
                      length v1 = n ∧ take v1 p = Ok v2) fl1 fl2.

(** What one iteration of the sub-Block loops reads: the gathered Cell Array
    of a sub-Block, and its fields as (name, values) pairs ([[]] when the
    sub-Block has no [fields] group). *)
Definition block_cells (blk : h5obj) : result cell_array :=
  points ← getitem blk "points";
  conn ← getitem blk "connectivity";
  gather points conn.

Definition block_fields (blk : h5obj) : result dict :=
  has ← contains blk "fields";
  if has : bool then
    fg ← getitem blk "fields";
    fs ← keys fg;
    rmap (λ f, d ← getitem fg f; v ← read_float1 d; Ok (f, v)) fs
  else Ok [].

(** One step of the field loops: the values of an entry start a new item of
    the dict or are appended to the item of that name. *)
Definition dict_add (d : dict) (e : string * list F64.t) : dict :=
  match assoc e.1 d with
  | None => dict_set d e.1 e.2
  | Some old => dict_set d e.1 (old ++ e.2)
  end.

(** The specification's concatenation in Block-iteration order: of the Cell
    Arrays, and of the values of each field over the sub-Blocks that have
    it, the names in the order in which they first appear. *)
Definition concat_cell_arrays (cs : list cell_array) : option cell_array :=
  match cs with
  | [] => None
  | c :: _ => Some (CellArray (nvert c) (dim c) (c' ← cs; cells c'))
  end.

Definition first_occurrences (l : list string) : list string :=
  foldl (λ acc x, if decide (x ∈ acc) then acc else acc ++ [x]) [] l.

Definition field_values (f : string) (entries : dict) : list F64.t :=
  e ← entries; if decide (e.1 = f) then e.2 else [].

Definition concat_fields (bfs : list dict) : dict :=
  (λ f, (f, field_values f (concat bfs))) <$> first_occurrences (concat bfs).*1.

(** Every field has one value per cell of its sub-Block, under names that
    are distinct within the sub-Block. *)
Definition one_value_per_cell (cs : list cell_array) (bfs : list dict) : Prop :=
  Forall2 (λ c bf, NoDup bf.*1 ∧ Forall (λ e, length e.2 = length (cells c)) bf) cs bfs.

(** Two meshes that the assembler does not tell apart. *)
Definition same_assembly (m m' : h5obj) : Prop :=
  construct_cells m = construct_cells m' ∧ construct_fields m = construct_fields m'.

(** A single-Block mesh that holds the concatenation of the sub-Blocks'
    data: its points gathered through its connectivity are the concatenated
    Cell Array, and its [fields] group is the concatenated field mapping. *)
Definition holds_concatenation (single : h5obj) (cs : list cell_array) (bfs : list dict) : Prop :=
  ∃ ss points conn c,
    single = Group ss ∧
    assoc "points" ss = Some points ∧
    assoc "connectivity" ss = Some conn ∧
    gather points conn = Ok c ∧
    concat_cell_arrays cs = Some c ∧
    assoc "fields" ss = Some (dict_obj (concat_fields bfs)).

(** Two sets of files that differ only in that where one stores the mesh
    [multi], the other stores [single]. *)
Definition mesh_replaced (multi single : h5obj) (fs fs' : filesystem) : Prop :=
  ∀ path, fs path = fs' path ∨
    ∃ r r', fs path = Some r ∧ fs' path = Some r' ∧
      getitem r "mesh" = Ok multi ∧ getitem r' "mesh" = Ok single.

(** ** Files used as concrete inputs *)

Module Ex.
(** Four points of the unit square. *)
Definition square : h5obj :=
  FloatData2 2 [[F64.zero; F64.zero]; [F64.one; F64.zero];
                [F64.zero; F64.one]; [F64.one; F64.one]].

(** A single-Block mesh file: two triangles and a [pressure] field. *)
Definition two_triangles (conn : list (list Z)) (pressure : list F64.t) : h5obj :=
  Group [("mesh", Group [("connectivity", IntData2 3 conn);
                         ("fields", Group [("pressure", FloatData1 pressure)]);
                         ("points", square)])].

Definition file_of (l : list (string * h5obj)) : filesystem := λ path, assoc path l.

(** Mesh A of the scenario, Mesh B (the same cells in the other order, the
    field reordered with them), and B with a perturbed pressure. *)
Definition meshA := two_triangles [[0; 1; 2]; [1; 3; 2]] [F64.one; F64.two].
Definition meshB := two_triangles [[1; 3; 2]; [0; 1; 2]] [F64.two; F64.one].
Definition meshB' := two_triangles [[1; 3; 2]; [0; 1; 2]] [F64.two; F64.one_plus_2e_14].
(** One triangle only; a different second triangle; no pressure field. *)
Definition mesh1 := two_triangles [[0; 1; 2]] [F64.one].
Definition meshT := two_triangles [[0; 1; 2]; [0; 3; 2]] [F64.one; F64.two].
Definition meshNaN := two_triangles [[0; 1; 2]] [F64.nan].
Definition meshPQ : h5obj :=
  Group [("mesh", Group [("connectivity", IntData2 3 [[0; 1; 2]; [1; 3; 2]]);
                         ("fields", Group [("p", FloatData1 [F64.one; F64.two]);
                                           ("q", FloatData1 [F64.one; F64.two])]);
                         ("points", square)])].
(** The same triangle twice, the two cells told apart by the field only. *)
Definition meshDup := two_triangles [[0; 1; 2]; [0; 1; 2]] [F64.one; F64.two].
Definition meshDup' := two_triangles [[0; 1; 2]; [0; 1; 2]] [F64.two; F64.one].
(** One triangle with a NaN coordinate. *)
Definition meshNaNxy : h5obj :=
  Group [("mesh", Group [("connectivity", IntData2 3 [[0; 1; 2]]);
                         ("fields", Group []);
                         ("points", FloatData2 2 [[F64.nan; F64.zero]; [F64.one; F64.zero];
                                                  [F64.zero; F64.one]])])].
Definition meshNoField : h5obj :=
  Group [("mesh", Group [("connectivity", IntData2 3 [[0; 1; 2]; [1; 3; 2]]);
                         ("fields", Group []);
                         ("points", square)])].

Definition fs : filesystem :=
  file_of [("a.h5", meshA); ("b.h5", meshB); ("c.h5", meshB');
           ("one.h5", mesh1); ("t.h5", meshT); ("nofield.h5", meshNoField);
           ("nan.h5", meshNaN); ("pq.h5", meshPQ);
           ("dup.h5", meshDup); ("dup2.h5", meshDup'); ("nanxy.h5", meshNaNxy)].

(** A sub-Block: one triangle of the square and its pressure, if any. *)
Definition block (conn : list Z) (pressure : option F64.t) : h5obj :=
  Group ([("connectivity", IntData2 3 [conn]); ("points", square)] ++
         match pressure with
         | Some x => [("fields", Group [("pressure", FloatData1 [x])])]
         | None => []
         end).

(** Mesh A stored as two sub-Blocks; the same with no field in the second
    sub-Block; and with a second sub-Block that has neither cells nor
    fields. *)
Definition two_blocks : list (string * h5obj) :=
  [("b0", block [0; 1; 2] (Some F64.one)); ("b1", block [1; 3; 2] (Some F64.two))].
Definition two_blocks_gap : list (string * h5obj) :=
  [("b0", block [0; 1; 2] (Some F64.one)); ("b1", block [1; 3; 2] None)].
Definition two_blocks_empty : list (string * h5obj) :=
  [("b0", block [0; 1; 2] (Some F64.one));
   ("b1", Group [("connectivity", IntData2 3 []); ("points", square)])].

Definition other_files : list (string * h5obj) :=
  [("gap.h5", Group [("mesh", Group two_blocks_gap)]);
   ("empty.h5", Group [("mesh", Group two_blocks_empty)]);
   ("a.h5", meshA); ("b.h5", meshB)].
Definition fs_blocks : filesystem :=
  file_of (("multi.h5", Group [("mesh", Group two_blocks)]) :: other_files).
(** The same files, with Mesh A as a single Block in place of the two
    sub-Blocks. *)
Definition fs_single : filesystem :=
  file_of (("multi.h5", meshA) :: other_files).

(** Files of indices 0, 1 and 2, the pair of index 1 differing in a field. *)
Definition fs_range : filesystem :=
  file_of [("a0.h5", meshA); ("b0.h5", meshB);
           ("a1.h5", meshA); ("b1.h5", meshB');
           ("a2.h5", meshA); ("b2.h5", meshB)].
End Ex.

(** * Properties *)

Set Warnings "-inexact-float".
Example decode_one : F64.decode F64.one = Prim2SF 1%float.
Proof. vm_compute. reflexivity. Qed.
Example decode_tol : tol = Prim2SF 1e-14%float.
Proof. vm_compute. reflexivity. Qed.
Example decode_e13 : F64.decode F64.e_13 = Prim2SF 1e-13%float.
Proof. vm_compute. reflexivity. Qed.
Example decode_nan : F64.decode F64.nan = Prim2SF PrimFloat.nan.
Proof. vm_compute. reflexivity. Qed.
Example decode_2e14 : F64.decode F64.one_plus_2e_14 = Prim2SF (1 + 2e-14)%float.
Proof. vm_compute. reflexivity. Qed.

(** ** The process monad *)

Lemma proc_eta {A} (p : proc A) : Proc (trace p) (outcome p) = p.
Proof. by destruct p. Qed.

Lemma bind_inr {A B} (m : proc A) (k : A → proc B) a :
  outcome m = inr a → m ≫= k = prefix (trace m) (k a).
Proof. intros H. unfold mbind, proc_bind. by rewrite H. Qed.

Lemma bind_inl {A B} (m : proc A) (k : A → proc B) h :
  outcome m = inl h → m ≫= k = Proc (trace m) (inl h).
Proof. intros H. unfold mbind, proc_bind. by rewrite H. Qed.

Lemma bind_lift_Ok {A B} (r : result A) (k : A → proc B) a :
  r = Ok a → lift r ≫= k = k a.
Proof. intros ->. unfold mbind, proc_bind. simpl. apply proc_eta. Qed.

Lemma bind_lift_Raise {A B} (r : result A) (k : A → proc B) e :
  r = Raise e → lift r ≫= k = Proc [] (inl (Uncaught e)).
Proof. by intros ->. Qed.

Lemma bind_assoc {A B C} (m : proc A) (f : A → proc B) (g : B → proc C) :
  (m ≫= f) ≫= g = m ≫= (λ x, f x ≫= g).
Proof.
  unfold mbind, proc_bind, prefix. destruct m as [t [h|a]]; simpl; [done|].
  destruct (f a) as [t' [h|b]]; simpl; [done|]. by rewrite app_assoc.
Qed.

Lemma emit_bind {B} e (k : unit → proc B) : emit e ≫= k = prefix [e] (k tt).
Proof. done. Qed.

Lemma prefix_bind {A B} t (m : proc A) (k : A → proc B) :
  prefix t m ≫= k = prefix t (m ≫= k).
Proof.
  unfold mbind, proc_bind, prefix. simpl.
  destruct (outcome m); simpl; [done|]. by rewrite app_assoc.
Qed.

Lemma prefix_prefix {A} t t' (p : proc A) : prefix t (prefix t' p) = prefix (t ++ t') p.
Proof. unfold prefix; simpl. by rewrite app_assoc. Qed.

Lemma prefix_nil {A} (p : proc A) : prefix [] p = p.
Proof. apply proc_eta. Qed.

Lemma h5py_File_bind {B} fs path root (k : h5obj → proc B) :
  fs path = Some root → h5py_File fs path ≫= k = prefix [OpenFile path] (k root).
Proof.
  intros H. unfold h5py_File. rewrite H, bind_assoc, emit_bind.
  by rewrite (bind_lift_Ok _ _ root).
Qed.

Lemma h5py_File_missing {B} fs path (k : h5obj → proc B) :
  fs path = None → h5py_File fs path ≫= k = Proc [OpenFile path] (inl (Uncaught OSError)).
Proof. intros H. unfold h5py_File. by rewrite H. Qed.

Lemma for_each_nil {A} (body : A → proc unit) : for_each [] body = Proc [] (inr tt).
Proof. done. Qed.

(** A loop whose bodies all end normally runs them all, in order. *)
Lemma for_each_all {A} (l : list A) (body : A → proc unit) :
  (∀ x, x ∈ l → outcome (body x) = inr tt) →
  for_each l body = Proc (x ← l; trace (body x)) (inr tt).
Proof.
  induction l as [|x l IH]; intros Hall; [done|].
  simpl. rewrite (bind_inr _ _ tt) by (apply Hall; left).
  rewrite IH by (intros; apply Hall; by right). done.
Qed.

(** A loop stops at the first body that does not end normally. *)
Lemma for_each_stop {A} (l1 l2 : list A) (x : A) (body : A → proc unit) h :
  (∀ y, y ∈ l1 → outcome (body y) = inr tt) →
  outcome (body x) = inl h →
  for_each (l1 ++ x :: l2) body = Proc (y ← l1 ++ [x]; trace (body y)) (inl h).
Proof.
  intros Hall Hx. induction l1 as [|y l1 IH]; simpl.
  - rewrite (bind_inl _ _ h) by done. by rewrite app_nil_r.
  - rewrite (bind_inr _ _ tt) by (apply Hall; left).
    rewrite IH by (intros; apply Hall; by right). done.
Qed.

(** ** Association lists *)

Lemma assoc_Some_elem {V} k (l : list (string * V)) v : assoc k l = Some v → k ∈ l.*1.
Proof.
  induction l as [|[k' v'] l IH]; simpl; [done|].
  case_decide; subst; [left|right; auto].
Qed.

Lemma assoc_None {V} k (l : list (string * V)) : assoc k l = None ↔ k ∉ l.*1.
Proof.
  induction l as [|[k' v'] l IH]; simpl.
  - split; [intros _; apply not_elem_of_nil|done].
  - rewrite not_elem_of_cons. case_decide as Hk.
    + split; [done|]. by intros [? _].
    + rewrite IH. split; [by split|by intros [_ ?]].
Qed.

Lemma assoc_elem {V} k (l : list (string * V)) : k ∈ l.*1 → is_Some (assoc k l).
Proof.
  intros Hk. destruct (assoc k l) eqn:E; [by eexists|]. by apply assoc_None in E.
Qed.

(** ** Range mode *)

(** C10: in range mode with [start > end] nothing is compared, nothing is
    printed and the process ends normally, with status 0. *)
Theorem empty_range_is_silent argsort fs (f1 f2 : string) (s e : Z) :
  e < s →
  main argsort fs (Args f1 f2 (Some s) (Some e)) = Proc [] (inr tt) ∧
  exit_status (outcome (main argsort fs (Args f1 f2 (Some s) (Some e)))) = 0.
Proof.
  intros Hlt. unfold main, range; simpl.
  rewrite seqZ_nil by lia. done.
Qed.

Lemma empty_range_is_silent_witness :
  main argsort_ms Ex.fs (Args "a" "b" (Some 3) (Some 2)) = Proc [] (inr tt) ∧
  exit_status (outcome (main argsort_ms Ex.fs (Args "a" "b" (Some 3) (Some 2)))) = 0.
Proof. apply (empty_range_is_silent argsort_ms Ex.fs "a" "b" 3 2). lia. Defined.

(** C6: in range mode the files of index [start], [start + 1], ... are
    compared in this order; the run is the sequence of these comparisons up
    to and including the first one that does not end normally, and it ends
    as that one does; with no such index, all of [start .. end] are compared
    and the run ends normally.  Nothing of a later index is in the run. *)
Theorem range_mode_sequential argsort fs (f1 f2 : string) (s e : Z) :
  let run := λ i : Z,
    compare_meshes argsort fs (f1 +:+ pretty i +:+ ".h5") (f2 +:+ pretty i +:+ ".h5") in
  ((∀ i, s ≤ i ≤ e → outcome (run i) = inr tt) →
     main argsort fs (Args f1 f2 (Some s) (Some e))
     = Proc (i ← seqZ s (e + 1 - s); trace (run i)) (inr tt)) ∧
  (∀ k h, s ≤ k ≤ e →
     (∀ i, s ≤ i < k → outcome (run i) = inr tt) →
     outcome (run k) = inl h →
     main argsort fs (Args f1 f2 (Some s) (Some e))
     = Proc (i ← seqZ s (k + 1 - s); trace (run i)) (inl h)).
Proof.
  intros run. unfold main, range; simpl. fold run. split.
  - intros Hall. apply for_each_all.
    intros i Hi%elem_of_seqZ. apply Hall. lia.
  - intros k h Hk Hbefore Hfail.
    replace (e + 1 - s) with ((k - s) + (1 + (e - k))) by lia.
    rewrite seqZ_app by lia.
    rewrite (seqZ_cons (s + (k - s))) by lia.
    replace (s + (k - s)) with k by lia.
    rewrite (for_each_stop _ _ _ _ h); [|intros i Hi%elem_of_seqZ; apply Hbefore; lia|done].
    f_equal. replace (k + 1 - s) with ((k - s) + 1) by lia.
    rewrite seqZ_app by lia. rewrite (seqZ_cons _ 1) by lia.
    rewrite (seqZ_nil (Z.succ _)) by lia.
    by replace (s + (k - s)) with k by lia.
Qed.

Lemma range_mode_sequential_witness :
  main argsort_ms Ex.fs_range (Args "a" "b" (Some 0) (Some 2))
  = Proc [OpenFile "a0.h5"; OpenFile "b0.h5"; Print "files a0.h5 and b0.h5 are the same";
          OpenFile "a1.h5"; OpenFile "b1.h5";
          PrintValues [F64.one] [F64.one_plus_2e_14] [absdiff F64.one F64.one_plus_2e_14];
          PrintCells [[[F64.zero; F64.zero]; [F64.one; F64.zero]; [F64.zero; F64.one]]]
                     [[[F64.zero; F64.zero]; [F64.one; F64.zero]; [F64.zero; F64.one]]];
          Print "pressure is not the same"]
         (inl (SysExit None)).
Proof.
  rewrite (proj2 (range_mode_sequential argsort_ms Ex.fs_range "a" "b" 0 2) 1 (SysExit None)).
  - vm_compute. reflexivity.
  - lia.
  - intros i Hi. assert (i = 0) as -> by lia. vm_compute. reflexivity.
  - vm_compute. reflexivity.
Defined.

(** ** The Mesh Assembler on a single Block *)

Lemma construct_fields_single (ms : list (string * h5obj)) :
  "points" ∈ ms.*1 →
  construct_fields (Group ms)
  = match assoc "fields" ms with Some fg => Ok fg | None => Ok (Group []) end.
Proof.
  intros Hin. unfold construct_fields; simpl.
  rewrite bool_decide_eq_true_2 by done.
  destruct (assoc "fields" ms) as [fg|] eqn:Hf.
  - rewrite bool_decide_eq_false_2; [done|].
    intros Hn. by apply Hn, (assoc_Some_elem _ _ fg).
  - by rewrite bool_decide_eq_true_2 by (by apply assoc_None).
Qed.

Lemma construct_cells_single (ms : list (string * h5obj)) (points : h5obj) :
  assoc "points" ms = Some points →
  construct_cells (Group ms)
  = (conn ← getitem (Group ms) "connectivity"; c ← gather points conn; Ok (Some c)).
Proof.
  intros Hp. unfold construct_cells; simpl.
  rewrite bool_decide_eq_true_2 by (by eapply assoc_Some_elem). by rewrite Hp.
Qed.



(** ** Shape check *)

Section shape.
Variable argsort : list (list Z) → list nat.
Variable fs : filesystem.
Variables (file1 file2 : string) (root1 root2 mesh1 mesh2 : h5obj).
Hypothesis open1 : fs file1 = Some root1.
Hypothesis open2 : fs file2 = Some root2.
Hypothesis get1 : getitem root1 "mesh" = Ok mesh1.
Hypothesis get2 : getitem root2 "mesh" = Ok mesh2.

(** The comparator up to the point where both Cell Arrays are built. *)
Lemma compare_meshes_cells c1 c2 :
  construct_cells mesh1 = Ok (Some c1) →
  construct_cells mesh2 = Ok (Some c2) →
  compare_meshes argsort fs file1 file2
  = prefix [OpenFile file1; OpenFile file2] (
    let index1 := argsort (cell_tobytes <$> cells c1) in
    let index2 := argsort (cell_tobytes <$> cells c2) in
    if bool_decide (shape c1 ≠ shape c2) then
      print "shape are not compatibles" ;;
      print (shape_str (shape c1) +:+ " vs " +:+ shape_str (shape c2)) ;;
      sys_exit (Some (different_msg file1 file2))
    else
      s1 ← lift (take (cells c1) index1);
      s2 ← lift (take (cells c2) index2);
      if any2 (any2 (any2 F64.ne)) s1 s2 then
        print "cells are not the same" ;;
        sys_exit (Some (different_msg file1 file2))
      else
        field1 ← lift (construct_fields mesh1);
        field2 ← lift (construct_fields mesh2);
        ks1 ← lift (keys field1);
        for_each ks1 (check_field file1 file2 c1 c2 index1 index2 field1 field2) ;;
        print (same_msg file1 file2)).
Proof.
  intros Hc1 Hc2. unfold compare_meshes.
  rewrite (h5py_File_bind _ _ root1), (bind_lift_Ok _ _ mesh1) by done.
  rewrite (h5py_File_bind _ _ root2), (bind_lift_Ok _ _ mesh2) by done.
  rewrite (bind_lift_Ok _ _ (Some c1)), (bind_lift_Ok _ _ (Some c2)) by done.
  rewrite prefix_prefix. simpl sort_index. by rewrite !(bind_lift_Ok _ _ _ eq_refl).
Qed.

(** C5: when the shapes of the two Cell Arrays differ in a component, the
    comparator prints the two shapes and exits with the [files ... are
    different] message; this is the whole run, whatever the cells and the
    fields hold: neither the topology check nor a field comparison takes
    place. *)
Theorem shape_mismatch_fails_first c1 c2 :
  construct_cells mesh1 = Ok (Some c1) →
  construct_cells mesh2 = Ok (Some c2) →
  length (cells c1) ≠ length (cells c2) ∨ nvert c1 ≠ nvert c2 ∨ dim c1 ≠ dim c2 →
  compare_meshes argsort fs file1 file2
  = Proc [OpenFile file1; OpenFile file2;
          Print "shape are not compatibles";
          Print (shape_str (length (cells c1), nvert c1, dim c1) +:+ " vs " +:+
                 shape_str (length (cells c2), nvert c2, dim c2))]
         (inl (SysExit (Some (different_msg file1 file2)))).
Proof.
  intros Hc1 Hc2 Hne. rewrite (compare_meshes_cells c1 c2) by done.
  rewrite bool_decide_eq_true_2; [done|].
  unfold shape. intros [= H1 H2 H3]. by destruct Hne as [?|[?|?]].
Qed.
End shape.

Lemma shape_mismatch_fails_first_witness :
  compare_meshes argsort_ms Ex.fs "a.h5" "one.h5"
  = Proc [OpenFile "a.h5"; OpenFile "one.h5";
          Print "shape are not compatibles"; Print "(2, 3, 2) vs (1, 3, 2)"]
         (inl (SysExit (Some "files a.h5 and one.h5 are different"))).
Proof.
  refine (shape_mismatch_fails_first argsort_ms Ex.fs "a.h5" "one.h5" _ _ _ _
            eq_refl eq_refl eq_refl eq_refl _ _ eq_refl eq_refl _).
  left. simpl. lia.
Defined.

(** ** Exit status *)

(** C2: the field-value-mismatch branch ends with [sys.exit()], which is
    status 0, where the shape, topology and missing-field branches end with
    [sys.exit(message)], which is status 1.  Mesh A against B with a
    pressure off by 2e-14 ends with status 0. *)
Theorem field_mismatch_exit_status :
  let run := compare_meshes argsort_ms Ex.fs in
  (outcome (run "a.h5" "c.h5") = inl (SysExit None) ∧
   last (trace (run "a.h5" "c.h5")) = Some (Print "pressure is not the same") ∧
   exit_status (outcome (run "a.h5" "c.h5")) = 0) ∧
  exit_status (outcome (run "a.h5" "one.h5")) = 1 ∧
  exit_status (outcome (run "a.h5" "t.h5")) = 1 ∧
  exit_status (outcome (run "a.h5" "nofield.h5")) = 1 ∧
  exit_status (outcome (run "a.h5" "b.h5")) = 0.
Proof. vm_compute. repeat split; reflexivity. Qed.

(** ** Tolerance *)





Lemma any2_false {A} (f : A → A → bool) (x y : list A) :
  any2 f x y = false ↔ ∀ j a b, x !! j = Some a → y !! j = Some b → f a b = false.
Proof.
  unfold any2. revert y. induction x as [|a x IH]; intros [|b y]; simpl;
    try (split; [by intros _ []|done]).
  rewrite orb_false_iff, IH. split.
  - intros [Hab Hrest] [|j] a' b'; simpl; [by intros [= <-] [= <-]|]. apply Hrest.
  - intros H. split; [by apply (H 0%nat)|]. intros j. apply (H (S j)).
Qed.

Lemma bind_outcome_inr {A B} (m : proc A) (k : A → proc B) b :
  outcome (m ≫= k) = inr b → ∃ a, outcome m = inr a ∧ outcome (k a) = inr b.
Proof.
  unfold mbind, proc_bind. destruct (outcome m) as [h|a]; simpl; [done|]. eauto.
Qed.

Section field_check.
Variables (file1 file2 : string) (cells1 cells2 : cell_array).
Variables (index1 index2 : list nat) (field1 field2 : h5obj) (field : string).
Variables (ks2 : list string) (v1 v2 : list F64.t).
Hypothesis keys2 : keys field2 = Ok ks2.
Hypothesis present : field ∈ ks2.
Hypothesis values1 : (d ← getitem field1 field; a ← read_float1 d; take a index1) = Ok v1.
Hypothesis values2 : (d ← getitem field2 field; a ← read_float1 d; take a index2) = Ok v2.

Lemma check_field_values :
  check_field file1 file2 cells1 cells2 index1 index2 field1 field2 field
  = if any2 exceeds v1 v2 then
      let ind := where_ (zip_with exceeds v1 v2) in
      p1 ← lift (i ← take index1 ind; d ← getitem field1 field;
                  a ← read_float1 d; take a i);
      p2 ← lift (i ← take index2 ind; d ← getitem field2 field;
                  a ← read_float1 d; take a i);
      emit (PrintValues p1 p2 (zip_with absdiff p1 p2)) ;;
      c1 ← lift (i ← take index1 ind; take (cells cells1) i);
      c2 ← lift (i ← take index2 ind; take (cells cells2) i);
      emit (PrintCells c1 c2) ;;
      print (field +:+ " is not the same") ;;
      sys_exit None
    else mret tt.
Proof.
  unfold check_field. rewrite (bind_lift_Ok _ _ ks2) by done.
  rewrite bool_decide_eq_false_2 by (by intros ?).
  by rewrite (bind_lift_Ok _ _ v1), (bind_lift_Ok _ _ v2) by done.
Qed.
End field_check.


(** ** The field phase of the comparator *)

Lemma check_field_pass_silent file1 file2 c1 c2 index1 index2 field1 field2 field :
  outcome (check_field file1 file2 c1 c2 index1 index2 field1 field2 field) = inr tt →
  check_field file1 file2 c1 c2 index1 index2 field1 field2 field = Proc [] (inr tt).
Proof.
  unfold check_field. destruct (keys field2) as [ks2|]; [|done].
  rewrite (bind_lift_Ok _ _ ks2) by done. case_bool_decide.
  { intros Ho. by repeat (apply bind_outcome_inr in Ho as (? & _ & Ho)). }
  destruct (getitem field1 field ≫= _) as [v1|]; [|done].
  rewrite (bind_lift_Ok _ _ v1) by done.
  destruct (getitem field2 field ≫= _) as [v2|]; [|done].
  rewrite (bind_lift_Ok _ _ v2) by done.
  destruct (any2 exceeds v1 v2); [|done].
  intros Ho. by repeat (apply bind_outcome_inr in Ho as (? & _ & Ho)).
Qed.

Lemma check_field_missing file1 file2 c1 c2 index1 index2 field1 field2 field ks2 :
  keys field2 = Ok ks2 → field ∉ ks2 →
  check_field file1 file2 c1 c2 index1 index2 field1 field2 field
  = Proc [Print (field +:+ " is not in second file")]
         (inl (SysExit (Some (different_msg file1 file2)))).
Proof.
  intros Hk Hf. unfold check_field. rewrite (bind_lift_Ok _ _ ks2) by done.
  by rewrite bool_decide_eq_true_2.
Qed.

Section fields_phase.
Variable argsort : list (list Z) → list nat.
Variable fs : filesystem.
Variables (file1 file2 : string) (root1 root2 mesh1 mesh2 : h5obj).
Variables (c1 c2 : cell_array) (s1 s2 : list (list (list F64.t))).
Variables (field1 field2 : h5obj) (ks1 : list string).
Hypothesis open1 : fs file1 = Some root1.
Hypothesis open2 : fs file2 = Some root2.
Hypothesis get1 : getitem root1 "mesh" = Ok mesh1.
Hypothesis get2 : getitem root2 "mesh" = Ok mesh2.
Hypothesis cells1 : construct_cells mesh1 = Ok (Some c1).
Hypothesis cells2 : construct_cells mesh2 = Ok (Some c2).
Hypothesis same_shape : shape c1 = shape c2.
Hypothesis sorted1 : take (cells c1) (argsort (cell_tobytes <$> cells c1)) = Ok s1.
Hypothesis sorted2 : take (cells c2) (argsort (cell_tobytes <$> cells c2)) = Ok s2.
Hypothesis same_cells : any2 (any2 (any2 F64.ne)) s1 s2 = false.
Hypothesis fields1 : construct_fields mesh1 = Ok field1.
Hypothesis fields2 : construct_fields mesh2 = Ok field2.
Hypothesis keys1 : keys field1 = Ok ks1.

(** Once the shape and topology checks have passed, the run is the loop
    over the fields of the first file, then the success message. *)
Lemma compare_meshes_fields :
  compare_meshes argsort fs file1 file2
  = prefix [OpenFile file1; OpenFile file2]
      (for_each ks1
         (check_field file1 file2 c1 c2
            (argsort (cell_tobytes <$> cells c1)) (argsort (cell_tobytes <$> cells c2))
            field1 field2) ;;
       print (same_msg file1 file2)).
Proof.
  rewrite (compare_meshes_cells _ _ _ _ root1 root2 mesh1 mesh2 open1 open2 get1 get2 c1 c2)
    by done.
  cbv zeta. rewrite bool_decide_eq_false_2 by (by intros ?).
  rewrite (bind_lift_Ok _ _ s1), (bind_lift_Ok _ _ s2) by done. rewrite same_cells.
  by rewrite (bind_lift_Ok _ _ field1), (bind_lift_Ok _ _ field2),
    (bind_lift_Ok _ _ ks1) by done.
Qed.

(** Every field passes: the files are reported the same. *)
Lemma compare_meshes_all_pass :
  (∀ f, f ∈ ks1 →
     outcome (check_field file1 file2 c1 c2
                (argsort (cell_tobytes <$> cells c1)) (argsort (cell_tobytes <$> cells c2))
                field1 field2 f) = inr tt) →
  compare_meshes argsort fs file1 file2
  = Proc [OpenFile file1; OpenFile file2; Print (same_msg file1 file2)] (inr tt).
Proof.
  intros Hall. rewrite compare_meshes_fields, for_each_all by done.
  replace (_ ≫= _ : list event) with (@nil event); [done|].
  clear -Hall. induction ks1 as [|f l IH]; [done|]. simpl.
  rewrite check_field_pass_silent by (apply Hall; left). simpl.
  apply IH. intros. apply Hall. by right.
Qed.

(** The first field that does not pass ends the run. *)
Lemma compare_meshes_first_failure pre f post h :
  ks1 = pre ++ f :: post →
  (∀ g, g ∈ pre →
     outcome (check_field file1 file2 c1 c2
                (argsort (cell_tobytes <$> cells c1)) (argsort (cell_tobytes <$> cells c2))
                field1 field2 g) = inr tt) →
  outcome (check_field file1 file2 c1 c2
             (argsort (cell_tobytes <$> cells c1)) (argsort (cell_tobytes <$> cells c2))
             field1 field2 f) = inl h →
  compare_meshes argsort fs file1 file2
  = Proc ([OpenFile file1; OpenFile file2] ++
          trace (check_field file1 file2 c1 c2
             (argsort (cell_tobytes <$> cells c1)) (argsort (cell_tobytes <$> cells c2))
             field1 field2 f))
         (inl h).
Proof.
  intros Hks Hpre Hf. rewrite compare_meshes_fields, Hks.
  rewrite (for_each_stop _ _ _ _ h) by done.
  rewrite (bind_inl _ _ h) by done. unfold prefix. simpl. do 3 f_equal.
  clear -Hpre. induction pre as [|g l IH]; simpl; [by rewrite app_nil_r|].
  rewrite check_field_pass_silent by (apply Hpre; left). simpl.
  apply IH. intros. apply Hpre. by right.
Qed.
End fields_phase.

Lemma for_each_ext {A} (l : list A) (f g : A → proc unit) :
  (∀ x, x ∈ l → f x = g x) → for_each l f = for_each l g.
Proof.
  induction l as [|x l IH]; intros H; [done|]. simpl.
  rewrite (H x) by left. rewrite IH; [done|]. intros. apply H. by right.
Qed.

(** ** Missing and extra fields *)

Section asymmetry.
Variable argsort : list (list Z) → list nat.
Variable fs : filesystem.
Variables (file1 file2 : string) (root1 root2 mesh1 mesh2 : h5obj).
Variables (c1 c2 : cell_array) (s1 s2 : list (list (list F64.t))).
Variables (field1 field2 : h5obj) (ks1 ks2 : list string).
Hypothesis open1 : fs file1 = Some root1.
Hypothesis open2 : fs file2 = Some root2.
Hypothesis get1 : getitem root1 "mesh" = Ok mesh1.
Hypothesis get2 : getitem root2 "mesh" = Ok mesh2.
Hypothesis cells1 : construct_cells mesh1 = Ok (Some c1).
Hypothesis cells2 : construct_cells mesh2 = Ok (Some c2).
Hypothesis same_shape : shape c1 = shape c2.
Hypothesis sorted1 : take (cells c1) (argsort (cell_tobytes <$> cells c1)) = Ok s1.
Hypothesis sorted2 : take (cells c2) (argsort (cell_tobytes <$> cells c2)) = Ok s2.
Hypothesis same_cells : any2 (any2 (any2 F64.ne)) s1 s2 = false.
Hypothesis fields1 : construct_fields mesh1 = Ok field1.
Hypothesis fields2 : construct_fields mesh2 = Ok field2.
Hypothesis keys1 : keys field1 = Ok ks1.
Hypothesis keys2 : keys field2 = Ok ks2.

Let check (fld2 : h5obj) : string → proc unit :=
  check_field file1 file2 c1 c2
    (argsort (cell_tobytes <$> cells c1)) (argsort (cell_tobytes <$> cells c2))
    field1 fld2.

(** C4, amended: when the shape and topology checks have passed, the first
    field of the first file (in its iteration order, the fields before it
    passing their check) that the second file lacks ends the run with a
    message naming it and the [files ... are different] exit.  A field
    that only the second file has is never looked at: a second file that
    differs from this one in such fields only gives the same run. *)
Theorem asymmetric_field_check :
  (∀ pre f post,
     ks1 = pre ++ f :: post →
     f ∉ ks2 →
     (∀ g, g ∈ pre → outcome (check field2 g) = inr tt) →
     compare_meshes argsort fs file1 file2
     = Proc [OpenFile file1; OpenFile file2; Print (f +:+ " is not in second file")]
            (inl (SysExit (Some (different_msg file1 file2))))) ∧
  (∀ fs' root2' mesh2' field2' ks2',
     fs' file1 = Some root1 →
     fs' file2 = Some root2' →
     getitem root2' "mesh" = Ok mesh2' →
     construct_cells mesh2' = Ok (Some c2) →
     construct_fields mesh2' = Ok field2' →
     keys field2' = Ok ks2' →
     (∀ g, g ∈ ks1 → (g ∈ ks2' ↔ g ∈ ks2) ∧ getitem field2' g = getitem field2 g) →
     compare_meshes argsort fs' file1 file2 = compare_meshes argsort fs file1 file2).
Proof.
  split.
  - intros pre f post Hks Hf Hpre.
    rewrite (compare_meshes_first_failure argsort fs file1 file2 root1 root2 mesh1 mesh2
               c1 c2 s1 s2 field1 field2 ks1 open1 open2 get1 get2 cells1 cells2
               same_shape sorted1 sorted2 same_cells fields1 fields2 keys1
               pre f post (SysExit (Some (different_msg file1 file2)))); try done.
    + by rewrite (check_field_missing _ _ _ _ _ _ _ _ _ ks2).
    + by rewrite (check_field_missing _ _ _ _ _ _ _ _ _ ks2).
  - intros fs' root2' mesh2' field2' ks2' Ho1 Ho2 Hg2 Hc2 Hf2 Hk2 Hagree.
    rewrite (compare_meshes_fields argsort fs file1 file2 root1 root2 mesh1 mesh2
               c1 c2 s1 s2 field1 field2 ks1) by done.
    rewrite (compare_meshes_fields argsort fs' file1 file2 root1 root2' mesh1 mesh2'
               c1 c2 s1 s2 field1 field2' ks1) by done.
    f_equal. f_equal. apply for_each_ext. intros g Hg.
    destruct (Hagree g Hg) as [Hin Hget]. unfold check_field.
    rewrite (bind_lift_Ok _ _ ks2'), (bind_lift_Ok _ _ ks2) by done.
    rewrite (bool_decide_ext (g ∉ ks2') (g ∉ ks2)) by (by rewrite Hin).
    by rewrite Hget.
Qed.
End asymmetry.

Lemma asymmetric_field_check_witness :
  compare_meshes argsort_ms Ex.fs "a.h5" "nofield.h5"
  = Proc [OpenFile "a.h5"; OpenFile "nofield.h5"; Print "pressure is not in second file"]
         (inl (SysExit (Some "files a.h5 and nofield.h5 are different"))).
Proof.
  edestruct (asymmetric_field_check argsort_ms Ex.fs "a.h5" "nofield.h5") as [Hmissing _];
    [reflexivity..|].
  apply (Hmissing [] "pressure" []); [reflexivity| |].
  - apply not_elem_of_nil.
  - intros g Hg. by apply elem_of_nil in Hg.
Defined.

(** C4, as stated, fails when the first file has two fields that the second
    lacks: [q] is in the first mapping and not in the second, and the run
    names [p] only. *)
Lemma second_missing_field_not_named :
  compare_meshes argsort_ms Ex.fs "pq.h5" "nofield.h5"
  = Proc [OpenFile "pq.h5"; OpenFile "nofield.h5"; Print "p is not in second file"]
         (inl (SysExit (Some "files pq.h5 and nofield.h5 are different"))) ∧
  Print "q is not in second file" ∉ trace (compare_meshes argsort_ms Ex.fs "pq.h5" "nofield.h5").
Proof.
  assert (compare_meshes argsort_ms Ex.fs "pq.h5" "nofield.h5"
    = Proc [OpenFile "pq.h5"; OpenFile "nofield.h5"; Print "p is not in second file"]
        (inl (SysExit (Some "files pq.h5 and nofield.h5 are different")))) as E
    by (by vm_compute).
  split; [done|]. rewrite E. simpl.
  rewrite !elem_of_cons, elem_of_nil. by intros [|[|[[=]|]]].
Qed.

(** ** The order on byte strings *)

Lemma bytes_compare_refl a : bytes_compare a a = Eq.
Proof. induction a as [|x a IH]; simpl; [done|]. by rewrite Z.compare_refl. Qed.

Lemma bytes_compare_eq a b : bytes_compare a b = Eq → a = b.
Proof.
  revert b. induction a as [|x a IH]; intros [|y b]; simpl; try done.
  destruct (Z.compare_spec x y); try done. intros. subst. f_equal. by apply IH.
Qed.

Lemma bytes_compare_antisym a b : bytes_compare b a = CompOpp (bytes_compare a b).
Proof.
  revert b. induction a as [|x a IH]; intros [|y b]; simpl; try done.
  rewrite (Z.compare_antisym x y). destruct (x ?= y); simpl; auto.
Qed.

Lemma bytes_compare_trans a b c :
  bytes_compare a b ≠ Gt → bytes_compare b c ≠ Gt → bytes_compare a c ≠ Gt.
Proof.
  revert b c. induction a as [|x a IH]; intros [|y b] [|z c]; simpl; try done.
  destruct (Z.compare_spec x y), (Z.compare_spec y z), (Z.compare_spec x z);
    try done; try lia.
  apply IH.
Qed.

Global Instance bytes_le_trans : Transitive bytes_le.
Proof. intros a b c. apply bytes_compare_trans. Qed.

Global Instance bytes_le_antisym : AntiSymm (=) bytes_le.
Proof.
  intros a b Hab Hba. unfold bytes_le in *. rewrite (bytes_compare_antisym a b) in Hba.
  apply bytes_compare_eq. by destruct (bytes_compare a b).
Qed.

Global Instance bytes_le_total : Total bytes_le.
Proof.
  intros a b. unfold bytes_le. rewrite (bytes_compare_antisym a b).
  destruct (bytes_compare a b); simpl; auto.
Qed.

(** ** Indexing by an array of positions *)

Lemma take_Ok {A} (a : list A) idx r :
  take a idx = Ok r ↔ Forall2 (λ i x, a !! i = Some x) idx r.
Proof.
  unfold take. revert r. induction idx as [|i idx IH]; intros r; simpl.
  - split; [by intros [= <-]|by intros ->%Forall2_nil_inv_l].
  - destruct (a !! i) as [x|] eqn:Hi.
    + destruct (rmap _ idx) as [ys|e] eqn:Hr.
      * split.
        -- intros [= <-]. constructor; [done|]. by apply IH.
        -- intros (x' & r' & Hx & Hr' & ->)%Forall2_cons_inv_l.
           apply IH in Hr'. by simplify_eq.
      * split; [done|].
        intros (x' & r' & Hx & Hr' & ->)%Forall2_cons_inv_l. by apply IH in Hr'.
    + split; [done|]. intros (x' & r' & Hx & _)%Forall2_cons_inv_l. by simplify_eq.
Qed.

Lemma take_Raise {A} (a : list A) idx e : take a idx = Raise e → e = IndexError.
Proof.
  unfold take. induction idx as [|i idx IH]; simpl; [done|].
  destruct (a !! i); [|by intros [= <-]].
  destruct (rmap _ idx); [done|]. intros [= <-]. by apply IH.
Qed.

Lemma take_in_range {A} (a : list A) idx :
  Forall (λ i, (i < length a)%nat) idx → ∃ r, take a idx = Ok r.
Proof.
  intros H. destruct (take a idx) as [r|e] eqn:E; [by eexists|]. exfalso.
  revert E. unfold take. induction H as [|i idx Hi _ IH]; simpl; [done|].
  destruct (lookup_lt_is_Some_2 a i Hi) as [x ->].
  destruct (rmap _ idx); [done|]. intros [= <-]. by apply IH.
Qed.

(** An array shorter than its index array is long cannot be indexed by a
    permutation of the positions. *)
Lemma take_short {A} (a : list A) idx n :
  idx ≡ₚ seq 0 n → (length a < n)%nat → take a idx = Raise IndexError.
Proof.
  intros Hperm Hlen. destruct (take a idx) as [r|e] eqn:E.
  - exfalso. apply take_Ok in E.
    assert (length a ∈ idx) as Hin by (rewrite Hperm, elem_of_seq; lia).
    apply list_elem_of_lookup in Hin as [j Hj].
    destruct (Forall2_lookup_l _ _ _ _ _ E Hj) as (x & _ & Hx).
    apply lookup_lt_Some in Hx. lia.
  - by apply take_Raise in E as ->.
Qed.

Lemma take_fmap {A B} (f : A → B) (a : list A) idx r :
  take a idx = Ok r → take (f <$> a) idx = Ok (f <$> r).
Proof.
  rewrite !take_Ok. intros H. apply Forall2_fmap_r.
  eapply Forall2_impl; [done|]. intros i x Hx. simpl. by rewrite list_lookup_fmap, Hx.
Qed.

Lemma take_length {A} (a : list A) idx r : take a idx = Ok r → length r = length idx.
Proof. rewrite take_Ok. intros H. symmetry. by eapply Forall2_length. Qed.

(** ** Tolerance on a field of scalars *)

Section tolerance.
Variables (file1 file2 : string) (cells1 cells2 : cell_array).
Variables (index1 index2 : list nat) (field1 field2 : h5obj) (field : string).
Variables (ks2 : list string) (a1 a2 v1 v2 : list F64.t).
Hypothesis keys2 : keys field2 = Ok ks2.
Hypothesis present : field ∈ ks2.
Hypothesis data1 : getitem field1 field = Ok (FloatData1 a1).
Hypothesis data2 : getitem field2 field = Ok (FloatData1 a2).
Hypothesis same_count : length index1 = length index2.
Hypothesis values1 : take a1 index1 = Ok v1.
Hypothesis values2 : take a2 index2 = Ok v2.

End tolerance.


(** ** The contract of [argsort] and what it gives *)

Lemma argsort_ms_spec : argsort_spec argsort_ms.
Proof.
  intros ks. unfold argsort_ms.
  set (R := λ x y : list Z * nat, bytes_le x.1 y.1).
  assert (Total R) by (intros x y; apply bytes_le_total).
  pose proof (merge_sort_Permutation R (zip ks (seq 0 (length ks)))) as Hp.
  split.
  - rewrite Hp. rewrite snd_zip; [done|]. by rewrite length_seq.
  - assert (Hfst : (λ i, ks !!! i) <$> (merge_sort R (zip ks (seq 0 (length ks)))).*2
                 = (merge_sort R (zip ks (seq 0 (length ks)))).*1).
    { rewrite <-list_fmap_compose. apply list_fmap_ext.
      intros j [k i] Hj. simpl.
      assert ((k, i) ∈ zip ks (seq 0 (length ks))) as Hin.
      { rewrite <-Hp. by eapply list_elem_of_lookup_2. }
      apply list_elem_of_lookup in Hin as [m Hm].
      apply lookup_zip_with_Some in Hm as (k' & i' & [= <- <-] & Hk & Hi).
      apply lookup_seq in Hi as [-> _]. simpl in *.
      by apply list_lookup_total_correct. }
    rewrite Hfst. apply (Sorted_fmap fst R bytes_le); [done|].
    by apply Sorted_merge_sort.
Qed.

Lemma fmap_lookup_total_seq `{Inhabited A} (l : list A) :
  (λ i, l !!! i) <$> seq 0 (length l) = l.
Proof.
  apply list_eq. intros i. rewrite list_lookup_fmap.
  destruct (l !! i) as [x|] eqn:Hi.
  - rewrite lookup_seq_lt by (by eapply lookup_lt_Some). simpl.
    f_equal. by apply list_lookup_total_correct.
  - rewrite lookup_seq_ge; [done|]. by apply lookup_ge_None.
Qed.

Lemma fmap_lookup_total_inj `{Inhabited A} (l : list A) (a b : list nat) :
  NoDup l →
  Forall (λ i, (i < length l)%nat) a → Forall (λ i, (i < length l)%nat) b →
  (λ i, l !!! i) <$> a = (λ i, l !!! i) <$> b → a = b.
Proof.
  intros Hnd Ha. revert b. induction Ha as [|i a Hi _ IH]; intros [|j b] Hb; simpl;
    try done.
  apply Forall_cons in Hb as [Hj Hb]. intros [= Hij Hab]. f_equal; [|by apply IH].
  destruct (lookup_lt_is_Some_2 l i Hi) as [x Hx].
  destruct (lookup_lt_is_Some_2 l j Hj) as [y Hy].
  rewrite (list_lookup_total_correct _ _ _ Hx), (list_lookup_total_correct _ _ _ Hy) in Hij.
  subst y. by eapply NoDup_lookup.
Qed.

Lemma Permutation_seq_bound (l : list nat) n :
  l ≡ₚ seq 0 n → Forall (λ i, (i < n)%nat) l.
Proof.
  intros Hp. rewrite Hp. apply Forall_forall. intros i Hi%elem_of_seq. lia.
Qed.

(** [a[p][i] = a[p[i]]] *)
Lemma take_compose {A} (a b : list A) (p i2 : list nat) r :
  take a p = Ok b → take b i2 = Ok r → take a ((λ i, p !!! i) <$> i2) = Ok r.
Proof.
  rewrite !take_Ok. intros Hab Hbr. apply Forall2_fmap_l.
  eapply Forall2_impl; [done|]. intros i x Hx. simpl.
  destruct (Forall2_lookup_r _ _ _ _ _ Hab Hx) as (pi & Hpi & Hapi).
  by rewrite (list_lookup_total_correct _ _ _ Hpi).
Qed.

Lemma take_Forall {A} (P : A → Prop) (a : list A) idx r :
  Forall P a → take a idx = Ok r → Forall P r.
Proof.
  intros Ha Hr%take_Ok. apply Forall_lookup. intros j x Hx.
  destruct (Forall2_lookup_r _ _ _ _ _ Hr Hx) as (i & _ & Hi).
  by eapply (Forall_lookup_1 P a).
Qed.

Section alignment.
Variable argsort : list (list Z) → list nat.
Hypothesis sorts : argsort_spec argsort.

(** The sort positions of an array with distinct keys and of a reordering
    of it pick the same elements: [argsort(ks) = p[argsort(ks[p])]]. *)
Lemma argsort_aligned (ks ks' : list (list Z)) (p : list nat) :
  NoDup ks → p ≡ₚ seq 0 (length ks) → take ks p = Ok ks' →
  argsort ks = (λ i, p !!! i) <$> argsort ks'.
Proof.
  intros Hnd Hp Hks'.
  destruct (sorts ks) as [P1 S1], (sorts ks') as [P2 S2].
  assert (length p = length ks) as Hlp by (by rewrite Hp, length_seq).
  assert (length ks' = length ks) as Hlk by (by rewrite (take_length _ _ _ Hks')).
  rewrite Hlk in P2.
  assert (Forall (λ i, (i < length ks)%nat) ((λ i, p !!! i) <$> argsort ks')) as Hq.
  { apply Forall_fmap, Forall_forall. intros i Hi.
    assert (i < length ks)%nat as Hlt.
    { rewrite P2 in Hi. apply elem_of_seq in Hi. lia. }
    destruct (lookup_lt_is_Some_2 p i) as [pi Hpi]; [lia|].
    simpl. rewrite (list_lookup_total_correct _ _ _ Hpi).
    assert (pi ∈ seq 0 (length ks)) as Hin
      by (rewrite <-Hp; by eapply list_elem_of_lookup_2).
    apply elem_of_seq in Hin. lia. }
  apply (fmap_lookup_total_inj ks); [done|by apply Permutation_seq_bound|done|].
  assert (Heq : (λ i, ks !!! i) <$> ((λ i, p !!! i) <$> argsort ks')
              = (λ i, ks' !!! i) <$> argsort ks').
  { rewrite <-list_fmap_compose. apply list_fmap_ext. intros j i Hj. simpl.
    assert (i < length ks)%nat as Hlt.
    { apply list_elem_of_lookup_2 in Hj. rewrite P2 in Hj.
      apply elem_of_seq in Hj. lia. }
    destruct (lookup_lt_is_Some_2 p i) as [pi Hpi]; [lia|].
    apply take_Ok in Hks'.
    destruct (Forall2_lookup_l _ _ _ _ _ Hks' Hpi) as (x & Hx' & Hx).
    by rewrite (list_lookup_total_correct _ _ _ Hpi),
      (list_lookup_total_correct _ _ _ Hx), (list_lookup_total_correct _ _ _ Hx'). }
  apply (Sorted_unique bytes_le); [done|by rewrite Heq|].
  rewrite P1, P2. rewrite <-Hlp at 2. rewrite !fmap_lookup_total_seq.
  by rewrite Hp, fmap_lookup_total_seq.
Qed.
End alignment.

(** ** A value against itself *)

Lemma SFcompare_refl d : d ≠ S754_nan → SFcompare d d = Some Eq.
Proof.
  destruct d as [[]|[]| |[] m e]; simpl; try done; intros _;
    by rewrite Z.compare_refl, Pos.compare_cont_refl.
Qed.

Lemma ne_refl x : F64.is_nan x = false → F64.ne x x = false.
Proof.
  unfold F64.is_nan, F64.ne, SFeqb. intros Hx.
  rewrite SFcompare_refl; [done|]. intros E. by rewrite E in Hx.
Qed.

(** [x - x] is [+0.0], or NaN when [x] is infinite or NaN: never above the
    tolerance. *)
Lemma absdiff_refl x : absdiff x x = S754_zero false ∨ absdiff x x = S754_nan.
Proof.
  unfold absdiff, F64.sub. destruct (F64.decode x) as [[]|[]| |s m e]; simpl; auto.
  rewrite Z.sub_diag. by left.
Qed.

Lemma exceeds_refl x : exceeds x x = false.
Proof. unfold exceeds. by destruct (absdiff_refl x) as [-> | ->]. Qed.

Lemma any2_refl {A} (f : A → A → bool) (l : list A) :
  Forall (λ x, f x x = false) l → any2 f l l = false.
Proof.
  intros H. apply any2_false. intros j a b Ha Hb. simplify_eq.
  rewrite Forall_lookup in H. by apply (H j).
Qed.

(** ** Permutation invariance *)

Lemma fields_reordered_keys n p fl1 fl2 : fields_reordered n p fl1 fl2 → fl1.*1 = fl2.*1.
Proof. induction 1 as [|[] [] ?? [? _]]; simpl in *; by f_equal. Qed.

Lemma fields_reordered_assoc n p fl1 fl2 f :
  fields_reordered n p fl1 fl2 → f ∈ fl1.*1 →
  ∃ v1 v2, assoc f fl1 = Some (FloatData1 v1) ∧ assoc f fl2 = Some (FloatData1 v2) ∧
           length v1 = n ∧ take v1 p = Ok v2.
Proof.
  induction 1 as [|[k1 o1] [k2 o2] fl1 fl2 (Hk & v1 & v2 & Ho1 & Ho2 & Hn & Hv) _ IH];
    simpl in *; [by intros ?%elem_of_nil|].
  subst k2 o1 o2. intros Hf. case_decide; [by eauto 10|].
  apply IH. by apply elem_of_cons in Hf as [|].
Qed.

Section permutation_invariance.
Variable argsort : list (list Z) → list nat.
Hypothesis sorts : argsort_spec argsort.
Variable fs : filesystem.
Variables (file1 file2 : string) (root1 root2 mesh1 mesh2 : h5obj).
Variables (c1 c2 : cell_array) (fl1 fl2 : list (string * h5obj)) (p : list nat).
Hypothesis open1 : fs file1 = Some root1.
Hypothesis open2 : fs file2 = Some root2.
Hypothesis get1 : getitem root1 "mesh" = Ok mesh1.
Hypothesis get2 : getitem root2 "mesh" = Ok mesh2.
Hypothesis cells1 : construct_cells mesh1 = Ok (Some c1).
Hypothesis cells2 : construct_cells mesh2 = Ok (Some c2).
Hypothesis fields1 : construct_fields mesh1 = Ok (Group fl1).
Hypothesis fields2 : construct_fields mesh2 = Ok (Group fl2).
Hypothesis same_kind : nvert c2 = nvert c1 ∧ dim c2 = dim c1.
Hypothesis cells_reordered : reordered p (cells c1) (cells c2).
Hypothesis values_reordered : fields_reordered (length (cells c1)) p fl1 fl2.
Hypothesis distinct_cells : NoDup (cell_tobytes <$> cells c1).
Hypothesis no_nan : Forall (Forall (Forall (λ x, F64.is_nan x = false))) (cells c1).

(** C1, amended: for a mesh whose cells have pairwise distinct coordinate
    tuples, none of them holding a NaN, with one value per cell in every
    field, and any permutation of its cells with every field's value
    sequence permuted identically, the comparator reports that the two
    inputs are the same. *)
Theorem permutation_invariance :
  compare_meshes argsort fs file1 file2
  = Proc [OpenFile file1; OpenFile file2; Print (same_msg file1 file2)] (inr tt).
Proof.
  destruct cells_reordered as [Hp Hc2]. destruct same_kind as [Hnv Hdim].
  set (i1 := argsort (cell_tobytes <$> cells c1)).
  set (i2 := argsort (cell_tobytes <$> cells c2)).
  assert (length (cells c2) = length (cells c1)) as Hlen.
  { by rewrite (take_length _ _ _ Hc2), Hp, length_seq. }
  assert (length p = length (cells c1)) as Hlp by (by rewrite Hp, length_seq).
  assert (i1 = (λ i, p !!! i) <$> i2) as Hi1.
  { apply argsort_aligned; [done..| |by apply take_fmap].
    by rewrite length_fmap. }
  assert (Forall (λ i, (i < length (cells c1))%nat) i2) as Hi2.
  { apply Permutation_seq_bound. destruct (sorts (cell_tobytes <$> cells c2)) as [P2 _].
    by rewrite length_fmap, Hlen in P2. }
  destruct (take_in_range (cells c2) i2) as [s Hs]; [by rewrite Hlen|].
  pose proof (take_compose _ _ _ _ _ Hc2 Hs) as Hs1. rewrite <-Hi1 in Hs1.
  apply (compare_meshes_all_pass argsort fs file1 file2 root1 root2 mesh1 mesh2
           c1 c2 s s (Group fl1) (Group fl2) (fl1.*1)); try done.
  - unfold shape. by rewrite Hlen, Hnv, Hdim.
  - apply any2_refl. eapply take_Forall; [|exact Hs1].
    eapply Forall_impl; [exact no_nan|]. intros c Hc. apply any2_refl.
    eapply Forall_impl; [exact Hc|]. intros row Hrow. apply any2_refl.
    eapply Forall_impl; [exact Hrow|]. exact ne_refl.
  - intros f Hf. fold i1 i2.
    destruct (fields_reordered_assoc _ _ _ _ f values_reordered Hf)
      as (v1 & v2 & Ha1 & Ha2 & Hn & Hv2).
    destruct (take_in_range v2 i2) as [w Hw].
    { by rewrite (take_length _ _ _ Hv2), Hlp. }
    pose proof (take_compose _ _ _ _ _ Hv2 Hw) as Hw1. rewrite <-Hi1 in Hw1.
    rewrite (check_field_values file1 file2 c1 c2 i1 i2 (Group fl1) (Group fl2) f
               (fl2.*1) w w).
    + by rewrite any2_refl by (apply Forall_forall; intros; apply exceeds_refl).
    + done.
    + by rewrite <-(fields_reordered_keys _ _ _ _ values_reordered).
    + simpl. by rewrite Ha1.
    + simpl. by rewrite Ha2.
Qed.
End permutation_invariance.

Lemma permutation_invariance_witness :
  compare_meshes argsort_ms Ex.fs "a.h5" "b.h5"
  = Proc [OpenFile "a.h5"; OpenFile "b.h5"; Print "files a.h5 and b.h5 are the same"]
         (inr tt).
Proof.
  eapply (permutation_invariance argsort_ms argsort_ms_spec Ex.fs "a.h5" "b.h5"
            _ _ _ _ _ _ _ _ [1; 0]%nat);
    [reflexivity | reflexivity | reflexivity | reflexivity | reflexivity | reflexivity
    | reflexivity | reflexivity | | | | |].
  - by split.
  - split; [apply perm_swap|reflexivity].
  - constructor; [|constructor]. split; [reflexivity|].
    eexists _, _. split_and!; reflexivity.
  - refine (bool_decide_unpack _ _). by vm_compute.
  - repeat constructor.
Defined.

(** C1, as stated, fails on a mesh with two cells of the same coordinates:
    swapping them and their field values leaves the cells as they were, the
    two sort orders agree, and the field values are compared crosswise.  It
    also fails on a mesh with a NaN coordinate, which differs from itself in
    the topology check. *)
Lemma duplicate_or_nan_cells_break_invariance :
  let tri := [[F64.zero; F64.zero]; [F64.one; F64.zero]; [F64.zero; F64.one]] in
  let p := [1; 0]%nat in
  ((m ← getitem Ex.meshDup "mesh"; construct_cells m) = Ok (Some (CellArray 3 2 [tri; tri])) ∧
   (m ← getitem Ex.meshDup' "mesh"; construct_cells m) = Ok (Some (CellArray 3 2 [tri; tri])) ∧
   reordered p [tri; tri] [tri; tri] ∧
   (m ← getitem Ex.meshDup "mesh"; construct_fields m)
   = Ok (Group [("pressure", FloatData1 [F64.one; F64.two])]) ∧
   (m ← getitem Ex.meshDup' "mesh"; construct_fields m)
   = Ok (Group [("pressure", FloatData1 [F64.two; F64.one])]) ∧
   fields_reordered 2 p [("pressure", FloatData1 [F64.one; F64.two])]
                        [("pressure", FloatData1 [F64.two; F64.one])] ∧
   compare_meshes argsort_ms Ex.fs "dup.h5" "dup2.h5"
   = Proc [OpenFile "dup.h5"; OpenFile "dup2.h5";
           PrintValues [F64.one; F64.two] [F64.two; F64.one]
             [absdiff F64.one F64.two; absdiff F64.two F64.one];
           PrintCells [tri; tri] [tri; tri];
           Print "pressure is not the same"]
          (inl (SysExit None))) ∧
  compare_meshes argsort_ms Ex.fs "nanxy.h5" "nanxy.h5"
  = Proc [OpenFile "nanxy.h5"; OpenFile "nanxy.h5"; Print "cells are not the same"]
         (inl (SysExit (Some "files nanxy.h5 and nanxy.h5 are different"))).
Proof.
  intros tri p. split_and!; try (by vm_compute).
  - split; [apply perm_swap|reflexivity].
  - constructor; [|constructor]. split; [reflexivity|].
    eexists _, _. split_and!; reflexivity.
Qed.

(** ** Multi-Block meshes *)

Lemma assoc_NoDup {V} (l : list (string * V)) k v :
  NoDup l.*1 → (k, v) ∈ l → assoc k l = Some v.
Proof.
  induction l as [|[k' v'] l IH]; simpl; [by intros _ ?%elem_of_nil|].
  intros [Hk' Hnd]%NoDup_cons [[= -> ->]|Hin]%elem_of_cons.
  - by rewrite decide_True.
  - rewrite decide_False; [by apply IH|]. intros ->. apply Hk'.
    apply list_elem_of_fmap. by exists (k', v).
Qed.

Lemma cell_array_eta c : CellArray (nvert c) (dim c) (cells c) = c.
Proof. by destruct c. Qed.

Section multi_block_cells.
Variable ms : list (string * h5obj).
Hypothesis names_distinct : NoDup ms.*1.

(** The loop of [construct_cells] over a part of the sub-Blocks whose Cell
    Arrays all have [w] vertices per cell and dimension [d]. *)
Lemma construct_cells_loop (w d : nat) (ms' : list (string * h5obj)) cs acc :
  ms' ⊆ ms →
  Forall2 (λ m c, block_cells m.2 = Ok c) ms' cs →
  Forall (λ c, nvert c = w ∧ dim c = d) cs →
  match acc with Some a => nvert a = w ∧ dim a = d | None => True end →
  rfold (λ output k,
      blk ← getitem (Group ms) k;
      points ← getitem blk "points";
      conn ← getitem blk "connectivity";
      match output with
      | None => c ← gather points conn; Ok (Some c)
      | Some out => new ← gather points conn; c ← concatenate out new; Ok (Some c)
      end) acc ms'.*1
  = Ok (match acc, cs with
        | None, _ => concat_cell_arrays cs
        | Some a, _ => Some (CellArray (nvert a) (dim a) (cells a ++ (c' ← cs; cells c')))
        end).
Proof.
  intros Hsub Hcs. revert acc.
  induction Hcs as [|[k blk] c ms' cs Hc _ IH]; intros acc Hwd Hacc; simpl.
  { destruct acc as [a|]; [|done]. by rewrite app_nil_r, cell_array_eta. }
  apply Forall_cons in Hwd as [[Hw Hd] Hwd].
  rewrite (assoc_NoDup ms k blk) by (done || apply Hsub; left). simpl.
  unfold block_cells in Hc. simpl in Hc.
  destruct (getitem blk "points") as [points|]; [|done]. simpl in *.
  destruct (getitem blk "connectivity") as [conn|]; [|done]. simpl in *.
  rewrite Hc. destruct acc as [a|]; simpl.
  - destruct Hacc as [Ha1 Ha2]. unfold concatenate.
    rewrite bool_decide_eq_true_2 by (by rewrite Ha1, Ha2, Hw, Hd). simpl.
    rewrite IH; [|by intros x Hx; apply Hsub; right|done|done]. simpl.
    by rewrite <-app_assoc.
  - by rewrite IH; [|by intros x Hx; apply Hsub; right|done|done].
Qed.

Lemma construct_cells_multi (cs : list cell_array) :
  "points" ∉ ms.*1 →
  Forall2 (λ m c, block_cells m.2 = Ok c) ms cs →
  (∀ c c', c ∈ cs → c' ∈ cs → nvert c = nvert c' ∧ dim c = dim c') →
  construct_cells (Group ms) = Ok (concat_cell_arrays cs).
Proof.
  intros Hmulti Hcs Huni. unfold construct_cells. simpl.
  rewrite bool_decide_eq_false_2 by done.
  destruct cs as [|c0 cs'] eqn:E.
  { apply Forall2_nil_inv_r in Hcs as ->. done. }
  rewrite <-E in *.
  apply (construct_cells_loop (nvert c0) (dim c0) ms cs None); [done|done| |done].
  apply Forall_forall. intros c Hc.
  destruct (Huni c0 c) as [-> ->]; [subst; left|done|done].
Qed.
End multi_block_cells.

Lemma accumulate_fields_foldl fg output fs bf :
  rmap (λ f, d ← getitem fg f; v ← read_float1 d; Ok (f, v)) fs = Ok bf →
  accumulate_fields fg output fs = Ok (foldl dict_add output bf).
Proof.
  unfold accumulate_fields. revert output bf.
  induction fs as [|f fs IH]; intros output bf; simpl; [by intros [= <-]|].
  destruct (getitem fg f) as [d|]; simpl; [|done].
  destruct (read_float1 d) as [v|]; simpl; [|done].
  destruct (rmap _ fs) as [bf'|] eqn:E; [|done]. intros [= <-]. simpl.
  unfold dict_add at 2. simpl.
  destruct (assoc f output); simpl; by apply IH.
Qed.

Lemma first_occurrences_snoc l x :
  first_occurrences (l ++ [x])
  = if decide (x ∈ first_occurrences l) then first_occurrences l
    else first_occurrences l ++ [x].
Proof. unfold first_occurrences. by rewrite foldl_app. Qed.

Lemma elem_of_first_occurrences l x : x ∈ first_occurrences l ↔ x ∈ l.
Proof.
  induction l as [|y l IH] using rev_ind; [done|].
  rewrite first_occurrences_snoc, elem_of_app, list_elem_of_singleton.
  case_decide as Hy.
  - rewrite IH. split; [by left|]. intros [?| ->]; [done|]. by apply IH.
  - by rewrite elem_of_app, list_elem_of_singleton, IH.
Qed.

Lemma NoDup_first_occurrences l : NoDup (first_occurrences l).
Proof.
  induction l as [|y l IH] using rev_ind; [constructor|].
  rewrite first_occurrences_snoc. case_decide as Hy; [done|].
  apply NoDup_app. split_and!; [done| |apply NoDup_singleton].
  intros x Hx ->%list_elem_of_singleton. done.
Qed.

Lemma field_values_snoc f es e :
  field_values f (es ++ [e]) = field_values f es ++ (if decide (e.1 = f) then e.2 else []).
Proof. unfold field_values. rewrite bind_app. simpl. by rewrite app_nil_r. Qed.

Lemma field_values_absent f es : f ∉ es.*1 → field_values f es = [].
Proof.
  unfold field_values. induction es as [|[k v] es IH]; csimpl; [done|].
  intros [Hk Hf]%not_elem_of_cons. rewrite decide_False by done. by apply IH.
Qed.

Lemma assoc_graph {V} (h : string → V) names f :
  assoc f ((λ g, (g, h g)) <$> names) = if decide (f ∈ names) then Some (h f) else None.
Proof.
  induction names as [|g names IH]; csimpl; [done|].
  destruct (decide (f = g)) as [->|Hfg].
  - by rewrite decide_True by (apply elem_of_cons; by left).
  - rewrite IH. destruct (decide (f ∈ names)) as [Hin|Hin].
    + by rewrite decide_True by (apply elem_of_cons; by right).
    + rewrite decide_False; [done|]. by intros [|]%elem_of_cons.
Qed.

Lemma dict_set_absent d f v : f ∉ d.*1 → dict_set d f v = d ++ [(f, v)].
Proof.
  induction d as [|[k w] d IH]; csimpl; [done|].
  intros [Hk Hf]%not_elem_of_cons. rewrite decide_False by done. by rewrite IH.
Qed.

Lemma dict_set_graph (h : string → list F64.t) names f v :
  NoDup names → f ∈ names →
  dict_set ((λ g, (g, h g)) <$> names) f v
  = (λ g, (g, if decide (g = f) then v else h g)) <$> names.
Proof.
  induction names as [|g names IH]; csimpl; [by intros _ ?%elem_of_nil|].
  intros [Hg Hnd]%NoDup_cons Hf. destruct (decide (f = g)) as [Hfg|Hfg].
  - subst g. rewrite decide_True by done. f_equal.
    apply list_fmap_ext. intros i g Hi. rewrite decide_False; [done|].
    intros ->. apply Hg. by eapply list_elem_of_lookup_2.
  - rewrite decide_False by done. f_equal. apply IH; [done|].
    by apply elem_of_cons in Hf as [|].
Qed.

(** The dict built entry by entry is the concatenation of the values by
    name, the names in the order of their first appearance. *)
Lemma foldl_dict_add es :
  foldl dict_add [] es = (λ f, (f, field_values f es)) <$> first_occurrences es.*1.
Proof.
  induction es as [|[f v] es IH] using rev_ind; [done|].
  rewrite foldl_app, fmap_app. change ([(f, v)].*1) with [f].
  rewrite first_occurrences_snoc. simpl. rewrite IH.
  unfold dict_add. simpl. rewrite assoc_graph.
  pose proof (NoDup_first_occurrences es.*1) as Hnd.
  case_decide as Hin.
  - rewrite dict_set_graph by done. apply list_fmap_ext. intros i g Hg.
    rewrite field_values_snoc. simpl. case_decide; subst.
    + by rewrite decide_True.
    + rewrite decide_False by done. by rewrite app_nil_r.
  - rewrite dict_set_absent.
    2:{ rewrite <-list_fmap_compose. simpl. by rewrite list_fmap_id. }
    rewrite fmap_app. simpl. f_equal.
    + apply list_fmap_ext. intros i g Hg. rewrite field_values_snoc. simpl.
      rewrite decide_False; [by rewrite app_nil_r|].
      intros ->. apply Hin. by eapply list_elem_of_lookup_2.
    + rewrite field_values_snoc. simpl. rewrite decide_True by done.
      rewrite field_values_absent; [done|]. by rewrite <-elem_of_first_occurrences.
Qed.

Section multi_block_fields.
Variable ms : list (string * h5obj).
Hypothesis names_distinct : NoDup ms.*1.

Lemma construct_fields_loop (ms' : list (string * h5obj)) (bfs : list dict) output :
  ms' ⊆ ms →
  Forall2 (λ m bf, block_fields m.2 = Ok bf) ms' bfs →
  rfold (λ output k,
      blk ← getitem (Group ms) k;
      has ← contains blk "fields";
      if has : bool then
        fg ← getitem blk "fields";
        fs ← keys fg;
        accumulate_fields fg output fs
      else Ok output) output ms'.*1
  = Ok (foldl dict_add output (concat bfs)).
Proof.
  intros Hsub Hbfs. revert output.
  induction Hbfs as [|[k blk] bf ms' bfs Hbf _ IH]; intros output; simpl; [done|].
  rewrite (assoc_NoDup ms k blk) by (done || apply Hsub; left). simpl.
  unfold block_fields in Hbf. simpl in Hbf.
  destruct (contains blk "fields") as [[]|]; simpl in *; [| |done].
  - destruct (getitem blk "fields") as [fg|]; simpl in *; [|done].
    destruct (keys fg) as [fs|]; simpl in *; [|done].
    rewrite (accumulate_fields_foldl _ _ _ bf) by done.
    rewrite foldl_app. apply IH. by intros x Hx; apply Hsub; right.
  - injection Hbf as <-. simpl. apply IH. by intros x Hx; apply Hsub; right.
Qed.

Lemma construct_fields_multi (bfs : list dict) :
  "points" ∉ ms.*1 →
  Forall2 (λ m bf, block_fields m.2 = Ok bf) ms bfs →
  construct_fields (Group ms) = Ok (dict_obj (concat_fields bfs)).
Proof.
  intros Hmulti Hbfs. unfold construct_fields. simpl.
  rewrite bool_decide_eq_false_2 by done.
  pose proof (construct_fields_loop ms bfs [] (reflexivity _) Hbfs) as Hloop.
  simpl in Hloop. rewrite Hloop. simpl.
  unfold concat_fields. by rewrite foldl_dict_add.
Qed.
End multi_block_fields.

(** ** A mesh seen through the assembler only *)

Lemma load_ext {B} fs fs' path (k k' : h5obj → proc B) :
  (fs path = fs' path ∨
   ∃ r r' m m', fs path = Some r ∧ fs' path = Some r' ∧
     getitem r "mesh" = Ok m ∧ getitem r' "mesh" = Ok m' ∧ same_assembly m m') →
  (∀ m m', same_assembly m m' → k m = k' m') →
  (h5py_File fs path ≫= λ root, lift (getitem root "mesh") ≫= k)
  = (h5py_File fs' path ≫= λ root, lift (getitem root "mesh") ≫= k').
Proof.
  intros [Heq|(r & r' & m & m' & Hr & Hr' & Hm & Hm' & Hsame)] Hk.
  - destruct (fs path) as [r|] eqn:E.
    + rewrite (h5py_File_bind fs path r), (h5py_File_bind fs' path r) by done.
      f_equal. destruct (getitem r "mesh") as [m|e]; [|done].
      rewrite !(bind_lift_Ok _ _ m) by done. by apply Hk.
    + by rewrite !h5py_File_missing by done.
  - rewrite (h5py_File_bind fs path r), (h5py_File_bind fs' path r') by done.
    rewrite (bind_lift_Ok _ _ m), (bind_lift_Ok _ _ m') by done. f_equal. by apply Hk.
Qed.

(** The comparator reads a mesh through [construct_cells] and
    [construct_fields] only. *)
Lemma compare_meshes_ext argsort fs fs' file1 file2 :
  (∀ path, fs path = fs' path ∨
     ∃ r r' m m', fs path = Some r ∧ fs' path = Some r' ∧
       getitem r "mesh" = Ok m ∧ getitem r' "mesh" = Ok m' ∧ same_assembly m m') →
  compare_meshes argsort fs file1 file2 = compare_meshes argsort fs' file1 file2.
Proof.
  intros Hrel. unfold compare_meshes.
  apply load_ext; [apply Hrel|]. intros m1 m1' [Hc1 Hf1].
  apply load_ext; [apply Hrel|]. intros m2 m2' [Hc2 Hf2].
  by rewrite Hc1, Hc2, Hf1, Hf2.
Qed.

(** C7: for a mesh stored as sub-Blocks, [construct_cells] is the
    concatenation of the sub-Blocks' gathered Cell Arrays and
    [construct_fields] the concatenation, by name, of their field values,
    both in Block-iteration order; so every comparison gives the same run
    when the mesh is replaced by a single-Block mesh holding this
    concatenation. *)
Theorem multi_block_concatenation argsort
    (ms : list (string * h5obj)) (cs : list cell_array) (bfs : list dict) :
  NoDup ms.*1 →
  "points" ∉ ms.*1 →
  Forall2 (λ m c, block_cells m.2 = Ok c) ms cs →
  Forall2 (λ m bf, block_fields m.2 = Ok bf) ms bfs →
  (∀ c c', c ∈ cs → c' ∈ cs → nvert c = nvert c' ∧ dim c = dim c') →
  construct_cells (Group ms) = Ok (concat_cell_arrays cs) ∧
  construct_fields (Group ms) = Ok (dict_obj (concat_fields bfs)) ∧
  ∀ single fs fs' file1 file2,
    holds_concatenation single cs bfs →
    mesh_replaced (Group ms) single fs fs' →
    compare_meshes argsort fs file1 file2 = compare_meshes argsort fs' file1 file2.
Proof.
  intros Hnd Hmulti Hcs Hbfs Huni.
  pose proof (construct_cells_multi ms Hnd cs Hmulti Hcs Huni) as Hcells.
  pose proof (construct_fields_multi ms Hnd bfs Hmulti Hbfs) as Hfields.
  split_and!; [done..|].
  intros single fs fs' file1 file2 (ss & points & conn & c & -> & Hp & Hc & Hg & Hcat & Hf) Hrep.
  apply compare_meshes_ext. intros path.
  destruct (Hrep path) as [?|(r & r' & Hr & Hr' & Hm & Hm')]; [by left|right].
  exists r, r', (Group ms), (Group ss). split_and!; try done.
  split.
  - rewrite Hcells, (construct_cells_single ss points Hp), Hcat. simpl.
    rewrite Hc. simpl. by rewrite Hg.
  - rewrite Hfields, construct_fields_single by (by eapply assoc_Some_elem).
    by rewrite Hf.
Qed.

Lemma multi_block_concatenation_witness :
  construct_cells (Group Ex.two_blocks)
  = Ok (Some (CellArray 3 2
          [[[F64.zero; F64.zero]; [F64.one; F64.zero]; [F64.zero; F64.one]];
           [[F64.one; F64.zero]; [F64.one; F64.one]; [F64.zero; F64.one]]])) ∧
  construct_fields (Group Ex.two_blocks)
  = Ok (Group [("pressure", FloatData1 [F64.one; F64.two])]) ∧
  compare_meshes argsort_ms Ex.fs_blocks "multi.h5" "b.h5"
  = compare_meshes argsort_ms Ex.fs_single "multi.h5" "b.h5".
Proof.
  destruct (multi_block_concatenation argsort_ms Ex.two_blocks
              [CellArray 3 2 [[[F64.zero; F64.zero]; [F64.one; F64.zero]; [F64.zero; F64.one]]];
               CellArray 3 2 [[[F64.one; F64.zero]; [F64.one; F64.one]; [F64.zero; F64.one]]]]
              [[("pressure", [F64.one])]; [("pressure", [F64.two])]])
    as (Hcells & Hfields & Hsame).
  - refine (bool_decide_unpack _ _). by vm_compute.
  - refine (bool_decide_unpack _ _). by vm_compute.
  - repeat constructor.
  - repeat constructor.
  - intros c c' Hc Hc'.
    repeat (apply elem_of_cons in Hc as [->|Hc]); try (by apply elem_of_nil in Hc);
    repeat (apply elem_of_cons in Hc' as [->|Hc']); try (by apply elem_of_nil in Hc');
    by split.
  - split_and!; [exact Hcells|exact Hfields|].
    apply Hsame with (single := Group [("connectivity", IntData2 3 [[0; 1; 2]; [1; 3; 2]]);
                           ("fields", Group [("pressure", FloatData1 [F64.one; F64.two])]);
                           ("points", Ex.square)]).
    + by eexists _, _, _, _.
    + intros path. unfold Ex.fs_blocks, Ex.fs_single, Ex.file_of. simpl.
      case_decide; [|by left]. right. by eexists _, _.
Defined.

(** ** A field missing from some sub-Blocks *)

Lemma assoc_dict_obj (d : dict) f :
  assoc f (prod_map id FloatData1 <$> d) = FloatData1 <$> assoc f d.
Proof.
  induction d as [|[k v] d IH]; csimpl; [done|]. by case_decide.
Qed.

Lemma field_values_concat f (bfs : list dict) :
  field_values f (concat bfs) = bf ← bfs; field_values f bf.
Proof.
  unfold field_values. induction bfs as [|bf bfs IH]; csimpl; [done|].
  by rewrite bind_app, IH.
Qed.

(** In one sub-Block a field has at most one value per cell. *)
Lemma field_values_length f (bf : dict) n :
  NoDup bf.*1 → Forall (λ e, length e.2 = n) bf → (length (field_values f bf) ≤ n)%nat.
Proof.
  unfold field_values. induction bf as [|[k v] bf IH]; csimpl; [lia|].
  intros [Hk Hnd]%NoDup_cons [Hv Hbf]%Forall_cons. simpl in *.
  rewrite length_app. case_decide as Hkf.
  - subst k. pose proof (field_values_absent f bf Hk) as Habs.
    unfold field_values in Habs. rewrite Habs. simpl. lia.
  - simpl. by apply IH.
Qed.

Lemma field_values_total_le f cs bfs :
  one_value_per_cell cs bfs →
  (length (field_values f (concat bfs)) ≤ length (c ← cs; cells c))%nat.
Proof.
  rewrite field_values_concat.
  induction 1 as [|c bf cs bfs [Hnd Hlen] _ IH]; csimpl; [lia|].
  rewrite !length_app. pose proof (field_values_length f bf _ Hnd Hlen). lia.
Qed.

(** A field that a sub-Block with cells lacks comes out shorter than the
    Cell Array. *)
Lemma field_values_total_lt f cs bfs j c bf :
  one_value_per_cell cs bfs →
  cs !! j = Some c → bfs !! j = Some bf → f ∉ bf.*1 → cells c ≠ [] →
  (length (field_values f (concat bfs)) < length (c ← cs; cells c))%nat.
Proof.
  intros Hinv. revert j. rewrite field_values_concat.
  induction Hinv as [|c0 bf0 cs bfs [Hnd Hlen] Hrest IH]; intros [|j]; csimpl;
    try done; rewrite !length_app.
  - intros [= ->] [= ->] Hf Hc. rewrite (field_values_absent f bf Hf). simpl.
    pose proof (field_values_total_le f cs bfs Hrest) as Hle.
    rewrite field_values_concat in Hle.
    destruct (cells c); [done|]. simpl. lia.
  - intros Hc Hbf Hf Hne. specialize (IH j Hc Hbf Hf Hne).
    pose proof (field_values_length f bf0 _ Hnd Hlen). lia.
Qed.

Section short_field.
Variable argsort : list (list Z) → list nat.
Hypothesis sorts : argsort_spec argsort.
Variable fs : filesystem.
Variables (file1 file2 : string) (root1 root2 mesh1 mesh2 : h5obj).
Variables (c1 c2 : cell_array) (s1 s2 : list (list (list F64.t))).
Variables (field1 field2 : h5obj) (ks1 ks2 : list string).
Variables (pre post : list string) (f : string) (v1 v2 : list F64.t).
Hypothesis open1 : fs file1 = Some root1.
Hypothesis open2 : fs file2 = Some root2.
Hypothesis get1 : getitem root1 "mesh" = Ok mesh1.
Hypothesis get2 : getitem root2 "mesh" = Ok mesh2.
Hypothesis cells1 : construct_cells mesh1 = Ok (Some c1).
Hypothesis cells2 : construct_cells mesh2 = Ok (Some c2).
Hypothesis same_shape : shape c1 = shape c2.
Hypothesis sorted1 : take (cells c1) (argsort (cell_tobytes <$> cells c1)) = Ok s1.
Hypothesis sorted2 : take (cells c2) (argsort (cell_tobytes <$> cells c2)) = Ok s2.
Hypothesis same_cells : any2 (any2 (any2 F64.ne)) s1 s2 = false.
Hypothesis fields1 : construct_fields mesh1 = Ok field1.
Hypothesis fields2 : construct_fields mesh2 = Ok field2.
Hypothesis keys1 : keys field1 = Ok ks1.
Hypothesis keys2 : keys field2 = Ok ks2.
Hypothesis reached : ks1 = pre ++ f :: post.
Hypothesis earlier_pass : ∀ g, g ∈ pre →
  outcome (check_field file1 file2 c1 c2
             (argsort (cell_tobytes <$> cells c1)) (argsort (cell_tobytes <$> cells c2))
             field1 field2 g) = inr tt.
Hypothesis in_second : f ∈ ks2.
Hypothesis values1 : getitem field1 f = Ok (FloatData1 v1).
Hypothesis values2 : getitem field2 f = Ok (FloatData1 v2).

(** A comparison that reaches a field with fewer values than there are
    cells, in either file, ends with an uncaught [IndexError]. *)
Lemma short_field_index_error :
  (length v1 < length (cells c1))%nat ∨ (length v2 < length (cells c2))%nat →
  compare_meshes argsort fs file1 file2
  = Proc [OpenFile file1; OpenFile file2] (inl (Uncaught IndexError)).
Proof.
  intros Hshort.
  set (i1 := argsort (cell_tobytes <$> cells c1)) in *.
  set (i2 := argsort (cell_tobytes <$> cells c2)) in *.
  assert (i1 ≡ₚ seq 0 (length (cells c1))) as P1.
  { destruct (sorts (cell_tobytes <$> cells c1)) as [P _]. by rewrite length_fmap in P. }
  assert (i2 ≡ₚ seq 0 (length (cells c2))) as P2.
  { destruct (sorts (cell_tobytes <$> cells c2)) as [P _]. by rewrite length_fmap in P. }
  assert (check_field file1 file2 c1 c2 i1 i2 field1 field2 f
          = Proc [] (inl (Uncaught IndexError))) as Hcheck.
  { unfold check_field. rewrite (bind_lift_Ok _ _ ks2) by done.
    rewrite bool_decide_eq_false_2 by (by intros ?).
    rewrite values1, values2. simpl.
    destruct (take v1 i1) as [w1|e] eqn:E1.
    - rewrite (bind_lift_Ok _ _ w1) by done.
      destruct Hshort as [Hs|Hs].
      + by rewrite (take_short v1 i1 _ P1 Hs) in E1.
      + by rewrite (take_short v2 i2 _ P2 Hs).
    - by apply take_Raise in E1 as ->. }
  rewrite (compare_meshes_first_failure argsort fs file1 file2 root1 root2 mesh1 mesh2
             c1 c2 s1 s2 field1 field2 ks1 open1 open2 get1 get2 cells1 cells2
             same_shape sorted1 sorted2 same_cells fields1 fields2 keys1
             pre f post (Uncaught IndexError)); try done.
  - fold i1 i2. by rewrite Hcheck.
  - fold i1 i2. by rewrite Hcheck.
Qed.
End short_field.

Lemma concat_cell_arrays_nonempty cs j cj :
  cs !! j = Some cj →
  ∃ c, concat_cell_arrays cs = Some c ∧ cells c = (c' ← cs; cells c').
Proof. destruct cs as [|c0 cs]; [done|]. intros _. by eexists. Qed.

Section under_populated.
Variable argsort : list (list Z) → list nat.
Hypothesis sorts : argsort_spec argsort.
Variables (ms : list (string * h5obj)) (cs : list cell_array) (bfs : list dict).
Variables (f : string) (j : nat) (cj : cell_array) (bfj : dict).
Hypothesis names_distinct : NoDup ms.*1.
Hypothesis multi : "points" ∉ ms.*1.
Hypothesis blocks_cells : Forall2 (λ m c, block_cells m.2 = Ok c) ms cs.
Hypothesis blocks_fields : Forall2 (λ m bf, block_fields m.2 = Ok bf) ms bfs.
Hypothesis uniform : ∀ c c', c ∈ cs → c' ∈ cs → nvert c = nvert c' ∧ dim c = dim c'.
Hypothesis per_cell : one_value_per_cell cs bfs.
Hypothesis present : f ∈ (concat bfs).*1.
Hypothesis block_j : cs !! j = Some cj ∧ bfs !! j = Some bfj.
Hypothesis missing : f ∉ bfj.*1.
Hypothesis has_cells : cells cj ≠ [].

Lemma under_populated_length :
  ∃ c v,
    construct_cells (Group ms) = Ok (Some c) ∧
    construct_fields (Group ms) = Ok (dict_obj (concat_fields bfs)) ∧
    getitem (dict_obj (concat_fields bfs)) f = Ok (FloatData1 v) ∧
    (length v < length (cells c))%nat.
Proof.
  destruct block_j as [Hcj Hbfj].
  pose proof (construct_cells_multi ms names_distinct cs multi blocks_cells uniform) as Hc.
  pose proof (construct_fields_multi ms names_distinct bfs multi blocks_fields) as Hf.
  destruct (concat_cell_arrays_nonempty cs j cj Hcj) as (c & Hcat & Hcells).
  exists c, (field_values f (concat bfs)). split_and!.
  - by rewrite Hc, Hcat.
  - done.
  - unfold dict_obj, concat_fields. simpl. rewrite assoc_dict_obj, assoc_graph.
    by rewrite decide_True by (by apply elem_of_first_occurrences).
  - rewrite Hcells. by eapply field_values_total_lt.
Qed.

(** C9, amended: in a multi-Block mesh whose fields hold one value per cell
    of their sub-Block, a field that a sub-Block with at least one cell
    lacks gets from [construct_fields] a value sequence shorter than the
    mesh's cell count; and a comparison with this mesh as either file that
    passes the shape and topology checks and reaches this field, present in
    both mappings, ends with an uncaught [IndexError], not with a verdict. *)
Theorem under_populated_field_index_error :
  (∃ c v,
     construct_cells (Group ms) = Ok (Some c) ∧
     construct_fields (Group ms) = Ok (dict_obj (concat_fields bfs)) ∧
     getitem (dict_obj (concat_fields bfs)) f = Ok (FloatData1 v) ∧
     (length v < length (cells c))%nat) ∧
  ∀ fs file1 file2 root1 root2 mesh1 mesh2 c1 c2 s1 s2 field1 field2 ks1 ks2 pre post v1 v2,
    mesh1 = Group ms ∨ mesh2 = Group ms →
    fs file1 = Some root1 → fs file2 = Some root2 →
    getitem root1 "mesh" = Ok mesh1 → getitem root2 "mesh" = Ok mesh2 →
    construct_cells mesh1 = Ok (Some c1) → construct_cells mesh2 = Ok (Some c2) →
    shape c1 = shape c2 →
    take (cells c1) (argsort (cell_tobytes <$> cells c1)) = Ok s1 →
    take (cells c2) (argsort (cell_tobytes <$> cells c2)) = Ok s2 →
    any2 (any2 (any2 F64.ne)) s1 s2 = false →
    construct_fields mesh1 = Ok field1 → construct_fields mesh2 = Ok field2 →
    keys field1 = Ok ks1 → keys field2 = Ok ks2 →
    ks1 = pre ++ f :: post →
    (∀ g, g ∈ pre →
       outcome (check_field file1 file2 c1 c2
                  (argsort (cell_tobytes <$> cells c1)) (argsort (cell_tobytes <$> cells c2))
                  field1 field2 g) = inr tt) →
    f ∈ ks2 →
    getitem field1 f = Ok (FloatData1 v1) → getitem field2 f = Ok (FloatData1 v2) →
    compare_meshes argsort fs file1 file2
    = Proc [OpenFile file1; OpenFile file2] (inl (Uncaught IndexError)).
Proof.
  split; [exact under_populated_length|].
  intros fs file1 file2 root1 root2 mesh1 mesh2 c1 c2 s1 s2 field1 field2 ks1 ks2
    pre post v1 v2 Hwhich Ho1 Ho2 Hg1 Hg2 Hc1 Hc2 Hshape Hs1 Hs2 Htopo Hf1 Hf2 Hk1 Hk2
    Hks Hpre Hin Hv1 Hv2.
  destruct under_populated_length as (c & v & Hc & Hf & Hv & Hlt).
  eapply (short_field_index_error argsort sorts fs file1 file2 root1 root2 mesh1 mesh2
            c1 c2 s1 s2 field1 field2 ks1 ks2 pre post f v1 v2); try done.
  destruct Hwhich as [-> | ->]; [left|right].
  - rewrite Hc in Hc1. rewrite Hf in Hf1. simplify_eq. rewrite Hv in Hv1. by simplify_eq.
  - rewrite Hc in Hc2. rewrite Hf in Hf2. simplify_eq. rewrite Hv in Hv2. by simplify_eq.
Qed.
End under_populated.

Lemma under_populated_field_index_error_witness :
  compare_meshes argsort_ms Ex.fs_blocks "gap.h5" "gap.h5"
  = Proc [OpenFile "gap.h5"; OpenFile "gap.h5"] (inl (Uncaught IndexError)).
Proof.
  edestruct (under_populated_field_index_error argsort_ms argsort_ms_spec Ex.two_blocks_gap
    [CellArray 3 2 [[[F64.zero; F64.zero]; [F64.one; F64.zero]; [F64.zero; F64.one]]];
     CellArray 3 2 [[[F64.one; F64.zero]; [F64.one; F64.one]; [F64.zero; F64.one]]]]
    [[("pressure", [F64.one])]; []] "pressure" 1%nat) as [_ Hrun].
  - refine (bool_decide_unpack _ _). by vm_compute.
  - refine (bool_decide_unpack _ _). by vm_compute.
  - repeat constructor.
  - repeat constructor.
  - intros c c' Hc Hc'.
    repeat (apply elem_of_cons in Hc as [->|Hc]); try (by apply elem_of_nil in Hc);
    repeat (apply elem_of_cons in Hc' as [->|Hc']); try (by apply elem_of_nil in Hc');
    by split.
  - repeat constructor. apply not_elem_of_nil.
  - apply list_elem_of_here.
  - by split.
  - apply not_elem_of_nil.
  - done.
  - eapply (Hrun Ex.fs_blocks "gap.h5" "gap.h5" _ _ _ _ _ _ _ _ _ _ _ _ [] []);
      [by left | reflexivity..| | |reflexivity|reflexivity].
    + intros g Hg. by apply elem_of_nil in Hg.
    + apply list_elem_of_here.
Defined.

(** C9, as stated, fails when the sub-Block that lacks the field has no
    cell: [pressure] is in the first sub-Block only, its value sequence is
    as long as the Cell Array, and the comparison gives a verdict. *)
Lemma empty_block_is_not_short :
  block_fields (Ex.block [0; 1; 2] (Some F64.one)) = Ok [("pressure", [F64.one])] ∧
  block_fields (Group [("connectivity", IntData2 3 []); ("points", Ex.square)]) = Ok [] ∧
  construct_cells (Group Ex.two_blocks_empty)
  = Ok (Some (CellArray 3 2
          [[[F64.zero; F64.zero]; [F64.one; F64.zero]; [F64.zero; F64.one]]])) ∧
  construct_fields (Group Ex.two_blocks_empty)
  = Ok (Group [("pressure", FloatData1 [F64.one])]) ∧
  compare_meshes argsort_ms Ex.fs_blocks "empty.h5" "empty.h5"
  = Proc [OpenFile "empty.h5"; OpenFile "empty.h5";
          Print "files empty.h5 and empty.h5 are the same"] (inr tt).
Proof. split_and!; by vm_compute. Qed.

(** * Further properties of the code *)

(** ** What a run that ends normally has established *)

Lemma lift_outcome_inr {A} (r : result A) a : outcome (lift r) = inr a → r = Ok a.
Proof. destruct r; simpl; [by intros [= ->]|done]. Qed.

Lemma h5py_File_outcome_inr fs path root :
  outcome (h5py_File fs path) = inr root → fs path = Some root.
Proof.
  unfold h5py_File. intros H. apply bind_outcome_inr in H as ([] & _ & H).
  apply lift_outcome_inr in H. by destruct (fs path); simplify_eq.
Qed.

Lemma for_each_outcome_inr {A} (l : list A) (body : A → proc unit) :
  outcome (for_each l body) = inr tt → ∀ x, x ∈ l → outcome (body x) = inr tt.
Proof.
  induction l as [|y l IH]; simpl; intros H x Hx; [by apply elem_of_nil in Hx|].
  apply bind_outcome_inr in H as ([] & Hy & H).
  apply elem_of_cons in Hx as [->|Hx]; [done|by apply IH].
Qed.

(** A field that passes its check is in the second mapping, both value
    sequences could be read and reordered, and no pair of values exceeds
    the tolerance. *)
Lemma check_field_outcome_inr file1 file2 c1 c2 index1 index2 field1 field2 field :
  outcome (check_field file1 file2 c1 c2 index1 index2 field1 field2 field) = inr tt →
  ∃ ks2 v1 v2,
    keys field2 = Ok ks2 ∧ field ∈ ks2 ∧
    (d ← getitem field1 field; a ← read_float1 d; take a index1) = Ok v1 ∧
    (d ← getitem field2 field; a ← read_float1 d; take a index2) = Ok v2 ∧
    any2 exceeds v1 v2 = false.
Proof.
  unfold check_field. intros H.
  apply bind_outcome_inr in H as (ks2 & Hks2%lift_outcome_inr & H).
  case_bool_decide as Hin.
  { by repeat (apply bind_outcome_inr in H as (? & _ & H)). }
  apply bind_outcome_inr in H as (v1 & Hv1%lift_outcome_inr & H).
  apply bind_outcome_inr in H as (v2 & Hv2%lift_outcome_inr & H).
  destruct (any2 exceeds v1 v2) eqn:Hany.
  { by repeat (apply bind_outcome_inr in H as (? & _ & H)). }
  exists ks2, v1, v2. split_and!; try done.
Qed.

Section normal_end.
Variable argsort : list (list Z) → list nat.
Variable fs : filesystem.
Variables file1 file2 : string.
Hypothesis ends_normally : outcome (compare_meshes argsort fs file1 file2) = inr tt.

Lemma compare_meshes_outcome_inr :
  ∃ root1 root2 mesh1 mesh2 c1 c2 s1 s2 field1 field2 ks1,
    fs file1 = Some root1 ∧ fs file2 = Some root2 ∧
    getitem root1 "mesh" = Ok mesh1 ∧ getitem root2 "mesh" = Ok mesh2 ∧
    construct_cells mesh1 = Ok (Some c1) ∧ construct_cells mesh2 = Ok (Some c2) ∧
    shape c1 = shape c2 ∧
    take (cells c1) (argsort (cell_tobytes <$> cells c1)) = Ok s1 ∧
    take (cells c2) (argsort (cell_tobytes <$> cells c2)) = Ok s2 ∧
    any2 (any2 (any2 F64.ne)) s1 s2 = false ∧
    construct_fields mesh1 = Ok field1 ∧ construct_fields mesh2 = Ok field2 ∧
    keys field1 = Ok ks1 ∧
    ∀ f, f ∈ ks1 →
      outcome (check_field file1 file2 c1 c2
                 (argsort (cell_tobytes <$> cells c1)) (argsort (cell_tobytes <$> cells c2))
                 field1 field2 f) = inr tt.
Proof.
  pose proof ends_normally as H. unfold compare_meshes in H.
  apply bind_outcome_inr in H as (root1 & Hr1%h5py_File_outcome_inr & H).
  apply bind_outcome_inr in H as (mesh1 & Hm1%lift_outcome_inr & H).
  apply bind_outcome_inr in H as (root2 & Hr2%h5py_File_outcome_inr & H).
  apply bind_outcome_inr in H as (mesh2 & Hm2%lift_outcome_inr & H).
  apply bind_outcome_inr in H as (cells1 & Hc1%lift_outcome_inr & H).
  apply bind_outcome_inr in H as (cells2 & Hc2%lift_outcome_inr & H).
  apply bind_outcome_inr in H as (index1 & Hi1%lift_outcome_inr & H).
  apply bind_outcome_inr in H as (index2 & Hi2%lift_outcome_inr & H).
  destruct cells1 as [c1|]; [|done]. destruct cells2 as [c2|]; [|done].
  simpl in Hi1, Hi2. injection Hi1 as <-. injection Hi2 as <-.
  case_bool_decide as Hshape.
  { by repeat (apply bind_outcome_inr in H as (? & _ & H)). }
  apply bind_outcome_inr in H as (s1 & Hs1%lift_outcome_inr & H).
  apply bind_outcome_inr in H as (s2 & Hs2%lift_outcome_inr & H).
  destruct (any2 (any2 (any2 F64.ne)) s1 s2) eqn:Htopo.
  { by repeat (apply bind_outcome_inr in H as (? & _ & H)). }
  apply bind_outcome_inr in H as (field1 & Hf1%lift_outcome_inr & H).
  apply bind_outcome_inr in H as (field2 & Hf2%lift_outcome_inr & H).
  apply bind_outcome_inr in H as (ks1 & Hk1%lift_outcome_inr & H).
  apply bind_outcome_inr in H as ([] & Hloop & _).
  exists root1, root2, mesh1, mesh2, c1, c2, s1, s2, field1, field2, ks1.
  split_and!; try done.
  by apply for_each_outcome_inr.
Qed.

(** A comparison that ends normally has printed one line, the success
    message, and nothing else. *)
Theorem normal_end_prints_only_same :
  compare_meshes argsort fs file1 file2
  = Proc [OpenFile file1; OpenFile file2; Print (same_msg file1 file2)] (inr tt).
Proof.
  destruct compare_meshes_outcome_inr
    as (root1 & root2 & mesh1 & mesh2 & c1 & c2 & s1 & s2 & field1 & field2 & ks1 &
        ? & ? & ? & ? & ? & ? & ? & ? & ? & ? & ? & ? & ? & Hall).
  by eapply compare_meshes_all_pass.
Qed.

(** The success verdict is sound for what the comparator checks: both files
    hold a mesh whose Cell Array could be built, the two shapes are equal,
    the sorted Cell Arrays have no coordinate pair that [!=] tells apart,
    every field of the first file is in the second, and every such field
    that both files hold as a one-dimensional dataset, one scalar per cell,
    has no pair of sorted values further apart than the tolerance. *)
Theorem same_verdict_sound :
  ∃ (root1 root2 mesh1 mesh2 : h5obj) (c1 c2 : cell_array)
    (s1 s2 : list (list (list F64.t))) (field1 field2 : h5obj) (ks1 : list string),
    fs file1 = Some root1 ∧ fs file2 = Some root2 ∧
    getitem root1 "mesh" = Ok mesh1 ∧ getitem root2 "mesh" = Ok mesh2 ∧
    construct_cells mesh1 = Ok (Some c1) ∧ construct_cells mesh2 = Ok (Some c2) ∧
    shape c1 = shape c2 ∧
    take (cells c1) (argsort (cell_tobytes <$> cells c1)) = Ok s1 ∧
    take (cells c2) (argsort (cell_tobytes <$> cells c2)) = Ok s2 ∧
    (∀ (i j k : nat) cell1 cell2 row1 row2 x y,
       s1 !! i = Some cell1 → s2 !! i = Some cell2 →
       cell1 !! j = Some row1 → cell2 !! j = Some row2 →
       row1 !! k = Some x → row2 !! k = Some y → F64.ne x y = false) ∧
    construct_fields mesh1 = Ok field1 ∧ construct_fields mesh2 = Ok field2 ∧
    keys field1 = Ok ks1 ∧
    ∀ f, f ∈ ks1 →
      ∃ ks2 : list string,
        keys field2 = Ok ks2 ∧ f ∈ ks2 ∧
        ∀ a1 a2 : list F64.t,
          getitem field1 f = Ok (FloatData1 a1) →
          getitem field2 f = Ok (FloatData1 a2) →
          ∃ v1 v2 : list F64.t,
            take a1 (argsort (cell_tobytes <$> cells c1)) = Ok v1 ∧
            take a2 (argsort (cell_tobytes <$> cells c2)) = Ok v2 ∧
            ∀ (i : nat) a b, v1 !! i = Some a → v2 !! i = Some b → exceeds a b = false.
Proof.
  destruct compare_meshes_outcome_inr
    as (root1 & root2 & mesh1 & mesh2 & c1 & c2 & s1 & s2 & field1 & field2 & ks1 &
        ? & ? & ? & ? & ? & ? & ? & ? & ? & Htopo & ? & ? & ? & Hall).
  exists root1, root2, mesh1, mesh2, c1, c2, s1, s2, field1, field2, ks1.
  split_and!; try done.
  - intros i j k cell1 cell2 row1 row2 x y E1 E2 F1 F2 Hx Hy.
    pose proof (proj1 (any2_false _ _ _) Htopo i cell1 cell2 E1 E2) as Hcell.
    pose proof (proj1 (any2_false _ _ _) Hcell j row1 row2 F1 F2) as Hrow.
    exact (proj1 (any2_false _ _ _) Hrow k x y Hx Hy).
  - intros f Hf.
    destruct (check_field_outcome_inr _ _ _ _ _ _ _ _ _ (Hall f Hf))
      as (ks2 & v1 & v2 & ? & ? & Hv1 & Hv2 & Hany).
    exists ks2. split_and!; try done. intros a1 a2 Ha1 Ha2.
    rewrite Ha1 in Hv1. rewrite Ha2 in Hv2. simpl in Hv1, Hv2.
    exists v1, v2. split_and!; try done. by apply any2_false.
Qed.
End normal_end.

Lemma normal_end_prints_only_same_witness :
  compare_meshes argsort_ms Ex.fs "a.h5" "b.h5"
  = Proc [OpenFile "a.h5"; OpenFile "b.h5"; Print "files a.h5 and b.h5 are the same"]
         (inr tt).
Proof. apply (normal_end_prints_only_same argsort_ms Ex.fs "a.h5" "b.h5"). by vm_compute. Defined.

Lemma same_verdict_sound_witness :
  ∃ (root1 root2 mesh1 mesh2 : h5obj) (c1 c2 : cell_array)
    (s1 s2 : list (list (list F64.t))) (field1 field2 : h5obj) (ks1 : list string),
    Ex.fs "a.h5" = Some root1 ∧ Ex.fs "b.h5" = Some root2 ∧
    getitem root1 "mesh" = Ok mesh1 ∧ getitem root2 "mesh" = Ok mesh2 ∧
    construct_cells mesh1 = Ok (Some c1) ∧ construct_cells mesh2 = Ok (Some c2) ∧
    shape c1 = shape c2 ∧
    take (cells c1) (argsort_ms (cell_tobytes <$> cells c1)) = Ok s1 ∧
    take (cells c2) (argsort_ms (cell_tobytes <$> cells c2)) = Ok s2 ∧
    (∀ (i j k : nat) cell1 cell2 row1 row2 x y,
       s1 !! i = Some cell1 → s2 !! i = Some cell2 →
       cell1 !! j = Some row1 → cell2 !! j = Some row2 →
       row1 !! k = Some x → row2 !! k = Some y → F64.ne x y = false) ∧
    construct_fields mesh1 = Ok field1 ∧ construct_fields mesh2 = Ok field2 ∧
    keys field1 = Ok ks1 ∧
    ∀ f, f ∈ ks1 →
      ∃ ks2 : list string,
        keys field2 = Ok ks2 ∧ f ∈ ks2 ∧
        ∀ a1 a2 : list F64.t,
          getitem field1 f = Ok (FloatData1 a1) →
          getitem field2 f = Ok (FloatData1 a2) →
          ∃ v1 v2 : list F64.t,
            take a1 (argsort_ms (cell_tobytes <$> cells c1)) = Ok v1 ∧
            take a2 (argsort_ms (cell_tobytes <$> cells c2)) = Ok v2 ∧
            ∀ (i : nat) a b, v1 !! i = Some a → v2 !! i = Some b → exceeds a b = false.
Proof. apply (same_verdict_sound argsort_ms Ex.fs "a.h5" "b.h5"). by vm_compute. Defined.

(** ** Inputs that cannot be read *)

(** The files are opened in the order of the arguments, and a file that
    cannot be opened or has no [mesh] entry ends the run at once: the second
    file is not opened when the first fails, and neither mesh is assembled
    when the second fails. *)
Theorem unreadable_input_stops_early argsort fs (file1 file2 : string) :
  (fs file1 = None →
   compare_meshes argsort fs file1 file2
   = Proc [OpenFile file1] (inl (Uncaught OSError))) ∧
  (∀ ms, fs file1 = Some (Group ms) → "mesh" ∉ ms.*1 →
   compare_meshes argsort fs file1 file2
   = Proc [OpenFile file1] (inl (Uncaught (KeyError "mesh")))) ∧
  (∀ root1 mesh1, fs file1 = Some root1 → getitem root1 "mesh" = Ok mesh1 →
   fs file2 = None →
   compare_meshes argsort fs file1 file2
   = Proc [OpenFile file1; OpenFile file2] (inl (Uncaught OSError))) ∧
  (∀ root1 mesh1 ms, fs file1 = Some root1 → getitem root1 "mesh" = Ok mesh1 →
   fs file2 = Some (Group ms) → "mesh" ∉ ms.*1 →
   compare_meshes argsort fs file1 file2
   = Proc [OpenFile file1; OpenFile file2] (inl (Uncaught (KeyError "mesh")))).
Proof.
  unfold compare_meshes. split_and!.
  - intros H. by rewrite h5py_File_missing.
  - intros ms H Hm. rewrite (h5py_File_bind _ _ (Group ms)) by done.
    simpl. by rewrite (proj2 (assoc_None _ _) Hm).
  - intros root1 mesh1 H1 Hm1 H2.
    rewrite (h5py_File_bind _ _ root1), (bind_lift_Ok _ _ mesh1) by done.
    by rewrite h5py_File_missing.
  - intros root1 mesh1 ms H1 Hm1 H2 Hm2.
    rewrite (h5py_File_bind _ _ root1), (bind_lift_Ok _ _ mesh1) by done.
    rewrite (h5py_File_bind _ _ (Group ms)) by done.
    simpl. by rewrite (proj2 (assoc_None _ _) Hm2).
Qed.

Lemma unreadable_input_stops_early_witness :
  compare_meshes argsort_ms Ex.fs "a.h5" "absent.h5"
  = Proc [OpenFile "a.h5"; OpenFile "absent.h5"] (inl (Uncaught OSError)).
Proof.
  by eapply (proj1 (proj2 (proj2 (unreadable_input_stops_early argsort_ms Ex.fs
                                    "a.h5" "absent.h5")))).
Defined.

(** ** Topology check *)

Lemma any2_true {A} (f : A → A → bool) (x y : list A) j a b :
  x !! j = Some a → y !! j = Some b → f a b = true → any2 f x y = true.
Proof.
  intros Ha Hb Hf. destruct (any2 f x y) eqn:E; [done|].
  by rewrite (proj1 (any2_false f x y) E j a b Ha Hb) in Hf.
Qed.

Lemma compare_meshes_topology argsort fs file1 file2 root1 root2 mesh1 mesh2 c1 c2 s1 s2 :
  fs file1 = Some root1 → fs file2 = Some root2 →
  getitem root1 "mesh" = Ok mesh1 → getitem root2 "mesh" = Ok mesh2 →
  construct_cells mesh1 = Ok (Some c1) → construct_cells mesh2 = Ok (Some c2) →
  shape c1 = shape c2 →
  take (cells c1) (argsort (cell_tobytes <$> cells c1)) = Ok s1 →
  take (cells c2) (argsort (cell_tobytes <$> cells c2)) = Ok s2 →
  any2 (any2 (any2 F64.ne)) s1 s2 = true →
  compare_meshes argsort fs file1 file2
  = Proc [OpenFile file1; OpenFile file2; Print "cells are not the same"]
         (inl (SysExit (Some (different_msg file1 file2)))).
Proof.
  intros Ho1 Ho2 Hg1 Hg2 Hc1 Hc2 Hshape Hs1 Hs2 Hne.
  rewrite (compare_meshes_cells argsort fs file1 file2 root1 root2 mesh1 mesh2
             Ho1 Ho2 Hg1 Hg2 c1 c2 Hc1 Hc2).
  cbv zeta. rewrite bool_decide_eq_false_2 by (by intros ?).
  rewrite (bind_lift_Ok _ _ s1), (bind_lift_Ok _ _ s2) by done. by rewrite Hne.
Qed.

(** When the shapes agree and, after both Cell Arrays are sorted by key, a
    coordinate of the first differs from the coordinate at the same place
    of the second, the run prints [cells are not the same] and exits with
    the [files ... are different] message, whatever the fields hold. *)
Theorem topology_mismatch_fails argsort fs (file1 file2 : string)
    root1 root2 mesh1 mesh2 c1 c2 s1 s2 (i j k : nat) cell1 cell2 row1 row2 x y :
  fs file1 = Some root1 → fs file2 = Some root2 →
  getitem root1 "mesh" = Ok mesh1 → getitem root2 "mesh" = Ok mesh2 →
  construct_cells mesh1 = Ok (Some c1) → construct_cells mesh2 = Ok (Some c2) →
  shape c1 = shape c2 →
  take (cells c1) (argsort (cell_tobytes <$> cells c1)) = Ok s1 →
  take (cells c2) (argsort (cell_tobytes <$> cells c2)) = Ok s2 →
  s1 !! i = Some cell1 → s2 !! i = Some cell2 →
  cell1 !! j = Some row1 → cell2 !! j = Some row2 →
  row1 !! k = Some x → row2 !! k = Some y →
  F64.ne x y = true →
  compare_meshes argsort fs file1 file2
  = Proc [OpenFile file1; OpenFile file2; Print "cells are not the same"]
         (inl (SysExit (Some (different_msg file1 file2)))).
Proof.
  intros Ho1 Ho2 Hg1 Hg2 Hc1 Hc2 Hshape Hs1 Hs2 E1 E2 F1 F2 Hx Hy Hne.
  eapply compare_meshes_topology; try done.
  eapply any2_true; [done..|]. eapply any2_true; [done..|]. by eapply any2_true.
Qed.

Lemma topology_mismatch_fails_witness :
  compare_meshes argsort_ms Ex.fs "a.h5" "t.h5"
  = Proc [OpenFile "a.h5"; OpenFile "t.h5"; Print "cells are not the same"]
         (inl (SysExit (Some "files a.h5 and t.h5 are different"))).
Proof.
  eapply (topology_mismatch_fails argsort_ms Ex.fs "a.h5" "t.h5" _ _ _ _ _ _ _ _
            1 0 0 _ _ _ _ F64.one F64.zero);
    [reflexivity..|]. by vm_compute.
Defined.

(** ** A mesh against a copy of itself *)

Lemma any2_refl_true {A} (f : A → A → bool) (l : list A) x :
  x ∈ l → f x x = true → any2 f l l = true.
Proof. intros [j Hj]%list_elem_of_lookup Hf. by eapply any2_true. Qed.

Lemma ne_nan x : F64.is_nan x = true → F64.ne x x = true.
Proof. unfold F64.is_nan, F64.ne, SFeqb. by destruct (F64.decode x). Qed.

(** Indexing by a permutation of the positions keeps every element. *)
Lemma take_permutation_elem {A} (a : list A) idx r x :
  idx ≡ₚ seq 0 (length a) → take a idx = Ok r → x ∈ a → x ∈ r.
Proof.
  intros Hp Hr%take_Ok [i Hi]%list_elem_of_lookup.
  assert (i ∈ idx) as [j Hj]%list_elem_of_lookup.
  { rewrite Hp. apply elem_of_seq. apply lookup_lt_Some in Hi. lia. }
  destruct (Forall2_lookup_l _ _ _ _ _ Hr Hj) as (y & Hy & Hiy).
  simplify_eq. by eapply list_elem_of_lookup_2.
Qed.

Section copy.
Variable argsort : list (list Z) → list nat.
Hypothesis sorts : argsort_spec argsort.
Variable fs : filesystem.
Variables (file1 file2 : string) (root1 root2 mesh : h5obj) (c : cell_array).
Hypothesis open1 : fs file1 = Some root1.
Hypothesis open2 : fs file2 = Some root2.
Hypothesis get1 : getitem root1 "mesh" = Ok mesh.
Hypothesis get2 : getitem root2 "mesh" = Ok mesh.
Hypothesis cells_ok : construct_cells mesh = Ok (Some c).

Lemma sorted_copy :
  argsort (cell_tobytes <$> cells c) ≡ₚ seq 0 (length (cells c)) ∧
  ∃ s, take (cells c) (argsort (cell_tobytes <$> cells c)) = Ok s.
Proof.
  destruct (sorts (cell_tobytes <$> cells c)) as [P _]. rewrite length_fmap in P.
  split; [done|]. apply take_in_range. by apply Permutation_seq_bound.
Qed.

(** Reflexivity: two files that hold the same mesh are reported the same
    when no coordinate is a NaN and every field is a one-dimensional
    dataset with at least one value per cell.  Cells that repeat and field
    values that are NaN or infinite do not matter. *)
Theorem copy_is_same (field : h5obj) (ks : list string) :
  Forall (Forall (Forall (λ x, F64.is_nan x = false))) (cells c) →
  construct_fields mesh = Ok field →
  keys field = Ok ks →
  (∀ f, f ∈ ks →
     ∃ v, getitem field f = Ok (FloatData1 v) ∧ (length (cells c) ≤ length v)%nat) →
  compare_meshes argsort fs file1 file2
  = Proc [OpenFile file1; OpenFile file2; Print (same_msg file1 file2)] (inr tt).
Proof.
  intros Hnan Hfield Hks Hvals. destruct sorted_copy as [P [s Hs]].
  apply (compare_meshes_all_pass argsort fs file1 file2 root1 root2 mesh mesh
           c c s s field field ks); try done.
  - apply any2_refl. eapply take_Forall; [|exact Hs].
    eapply Forall_impl; [exact Hnan|]. intros cell Hc. apply any2_refl.
    eapply Forall_impl; [exact Hc|]. intros row Hrow. apply any2_refl.
    eapply Forall_impl; [exact Hrow|]. exact ne_refl.
  - intros f Hf. destruct (Hvals f Hf) as (v & Hv & Hlen).
    destruct (take_in_range v (argsort (cell_tobytes <$> cells c))) as [w Hw].
    { eapply Forall_impl; [by apply Permutation_seq_bound|]. simpl. lia. }
    rewrite (check_field_values file1 file2 c c _ _ field field f ks w w); try done.
    + by rewrite any2_refl by (apply Forall_forall; intros; apply exceeds_refl).
    + simpl. by rewrite Hv.
    + simpl. by rewrite Hv.
Qed.

(** A NaN coordinate makes a mesh differ from itself: two files that hold
    the same mesh with a NaN among its coordinates are reported different
    in the topology check. *)
Theorem nan_coordinate_differs_from_itself cell row x :
  cell ∈ cells c → row ∈ cell → x ∈ row → F64.is_nan x = true →
  compare_meshes argsort fs file1 file2
  = Proc [OpenFile file1; OpenFile file2; Print "cells are not the same"]
         (inl (SysExit (Some (different_msg file1 file2)))).
Proof.
  intros Hcell Hrow Hx Hnan. destruct sorted_copy as [P [s Hs]].
  apply (compare_meshes_topology argsort fs file1 file2 root1 root2 mesh mesh c c s s);
    try done.
  apply (any2_refl_true _ _ cell); [by eapply take_permutation_elem|].
  apply (any2_refl_true _ _ row); [done|].
  apply (any2_refl_true _ _ x); [done|]. by apply ne_nan.
Qed.
End copy.

Lemma copy_is_same_witness :
  compare_meshes argsort_ms Ex.fs "dup.h5" "dup.h5"
  = Proc [OpenFile "dup.h5"; OpenFile "dup.h5"; Print "files dup.h5 and dup.h5 are the same"]
         (inr tt).
Proof.
  eapply (copy_is_same argsort_ms argsort_ms_spec Ex.fs "dup.h5" "dup.h5");
    [reflexivity..| |reflexivity|reflexivity|].
  - repeat constructor.
  - intros f Hf. apply list_elem_of_singleton in Hf as ->.
    eexists. split; [reflexivity|]. simpl. lia.
Defined.

Lemma nan_coordinate_differs_from_itself_witness :
  compare_meshes argsort_ms Ex.fs "nanxy.h5" "nanxy.h5"
  = Proc [OpenFile "nanxy.h5"; OpenFile "nanxy.h5"; Print "cells are not the same"]
         (inl (SysExit (Some "files nanxy.h5 and nanxy.h5 are different"))).
Proof.
  eapply (nan_coordinate_differs_from_itself argsort_ms argsort_ms_spec Ex.fs
            "nanxy.h5" "nanxy.h5" _ _ _ _ eq_refl eq_refl eq_refl eq_refl eq_refl
            _ [F64.nan; F64.zero] F64.nan);
    [apply list_elem_of_here..|reflexivity].
Defined.

(** ** A mesh with no Block *)

Lemma construct_cells_loop_Some mesh (ks : list string) a o :
  rfold (λ output k,
      blk ← getitem mesh k;
      points ← getitem blk "points";
      conn ← getitem blk "connectivity";
      match output with
      | None => c ← gather points conn; Ok (Some c)
      | Some out => new ← gather points conn; c ← concatenate out new; Ok (Some c)
      end) (Some a) ks = Ok o → is_Some o.
Proof.
  revert a. induction ks as [|k ks IH]; intros a; simpl; [by intros [= <-]|].
  destruct (getitem mesh k) as [blk|]; simpl; [|done].
  destruct (getitem blk "points") as [points|]; simpl; [|done].
  destruct (getitem blk "connectivity") as [conn|]; simpl; [|done].
  destruct (gather points conn) as [new|]; simpl; [|done].
  destruct (concatenate a new) as [c|]; simpl; [|done]. apply IH.
Qed.

(** [construct_cells] returns [None] for a mesh group with no member, and
    for no other mesh. *)
Theorem construct_cells_None_iff (mesh : h5obj) :
  construct_cells mesh = Ok None ↔ mesh = Group [].
Proof.
  split; [|by intros ->].
  unfold construct_cells. destruct mesh as [| | |ms]; try done. simpl.
  case_bool_decide as Hp.
  { destruct (assoc "points" ms); simpl; [|done].
    destruct (match assoc "connectivity" ms with Some v => Ok v | None => _ end);
      simpl; [|done].
    by destruct (gather _ _). }
  destruct ms as [|[k blk] ms]; [done|]. simpl.
  rewrite decide_True by done. simpl.
  destruct (getitem blk "points") as [points|]; simpl; [|done].
  destruct (getitem blk "connectivity") as [conn|]; simpl; [|done].
  destruct (gather points conn) as [c|]; simpl; [|done].
  intros H.
  by apply (construct_cells_loop_Some (Group ((k, blk) :: ms)) (ms.*1)) in H as [? [=]].
Qed.

(** A mesh group with no member, in either file, ends the comparison with
    an uncaught [TypeError] once both Cell Arrays have been asked for. *)
Theorem no_block_is_type_error argsort fs (file1 file2 : string)
    root1 root2 mesh1 mesh2 o1 o2 :
  fs file1 = Some root1 → fs file2 = Some root2 →
  getitem root1 "mesh" = Ok mesh1 → getitem root2 "mesh" = Ok mesh2 →
  construct_cells mesh1 = Ok o1 → construct_cells mesh2 = Ok o2 →
  mesh1 = Group [] ∨ mesh2 = Group [] →
  compare_meshes argsort fs file1 file2
  = Proc [OpenFile file1; OpenFile file2] (inl (Uncaught TypeError)).
Proof.
  intros Ho1 Ho2 Hg1 Hg2 Hc1 Hc2 Hempty. unfold compare_meshes.
  rewrite (h5py_File_bind _ _ root1), (bind_lift_Ok _ _ mesh1) by done.
  rewrite (h5py_File_bind _ _ root2), (bind_lift_Ok _ _ mesh2) by done.
  rewrite (bind_lift_Ok _ _ o1), (bind_lift_Ok _ _ o2) by done.
  rewrite prefix_prefix.
  destruct Hempty as [-> | ->].
  - simpl in Hc1. by injection Hc1 as <-.
  - simpl in Hc2. injection Hc2 as <-. by destruct o1.
Qed.

Lemma no_block_is_type_error_witness :
  let fs := Ex.file_of [("a.h5", Ex.meshA); ("none.h5", Group [("mesh", Group [])])] in
  compare_meshes argsort_ms fs "a.h5" "none.h5"
  = Proc [OpenFile "a.h5"; OpenFile "none.h5"] (inl (Uncaught TypeError)).
Proof.
  intros fs.
  eapply (no_block_is_type_error argsort_ms fs "a.h5" "none.h5");
    [reflexivity..|by right].
Defined.

(** ** Gathering points through connectivity *)

Lemma rmap_Ok {A B} (f : A → result B) (l : list A) (r : list B) :
  rmap f l = Ok r ↔ Forall2 (λ x y, f x = Ok y) l r.
Proof.
  revert r. induction l as [|x l IH]; intros r; simpl.
  - split; [by intros [= <-]|by intros ->%Forall2_nil_inv_l].
  - destruct (f x) as [y|e] eqn:Hx.
    + destruct (rmap f l) as [ys|e] eqn:Hr.
      * split.
        -- intros [= <-]. constructor; [done|]. by apply IH.
        -- intros (y' & r' & Hy & Hr' & ->)%Forall2_cons_inv_l.
           apply IH in Hr'. congruence.
      * split; [done|].
        intros (y' & r' & Hy & Hr' & ->)%Forall2_cons_inv_l. by apply IH in Hr'.
    + split; [done|]. intros (y' & r' & Hy & _)%Forall2_cons_inv_l. congruence.
Qed.

Lemma rmap_Raise {A B} (f : A → result B) (l : list A) e :
  rmap f l = Raise e → ∃ x, x ∈ l ∧ f x = Raise e.
Proof.
  induction l as [|x l IH]; simpl; [done|].
  destruct (f x) as [y|e'] eqn:Hx.
  - destruct (rmap f l) as [ys|e'']; [done|]. intros [= ->].
    destruct IH as (x' & Hin & Hx'); [done|].
    exists x'. split; [by apply list_elem_of_further|done].
  - intros [= ->]. exists x. split; [apply list_elem_of_here|done].
Qed.

Lemma rmap_total {A B} (f : A → result B) (l : list A) :
  (∀ x, x ∈ l → ∃ y, f x = Ok y) → ∃ r, rmap f l = Ok r.
Proof.
  intros H. destruct (rmap f l) as [r|e] eqn:E; [by eexists|].
  apply rmap_Raise in E as (x & Hin & Hx). destruct (H x Hin) as [y Hy]. congruence.
Qed.

(** A position of a numpy array of length [n] is valid from [-n] to
    [n - 1]; a valid position [i] denotes the element at [i mod n]. *)
Lemma np_index_Ok {A} (a : list A) (i : Z) x :
  np_index a i = Ok x ↔
  (- Z.of_nat (length a) ≤ i < Z.of_nat (length a)) ∧
  a !! Z.to_nat (i mod Z.of_nat (length a)) = Some x.
Proof.
  unfold np_index. set (n := Z.of_nat (length a)).
  destruct (Z.ltb_spec i 0) as [Hneg|Hpos].
  - destruct (Z.leb_spec 0 (n + i)), (Z.ltb_spec (n + i) n); simpl;
      try (split; [done|intros [? _]; lia]).
    replace (i mod n) with (n + i) by (apply Z.mod_unique with (-1); lia).
    destruct (a !! Z.to_nat (n + i)) eqn:E.
    + split; [intros [= <-]; split; [lia|done]|by intros [_ [= <-]]].
    + split; [done|by intros [_ ?]].
  - destruct (Z.leb_spec 0 i), (Z.ltb_spec i n); simpl;
      try (split; [done|intros [? _]; lia]).
    rewrite Z.mod_small by lia.
    destruct (a !! Z.to_nat i) eqn:E.
    + split; [intros [= <-]; split; [lia|done]|by intros [_ [= <-]]].
    + split; [done|by intros [_ ?]].
Qed.

Lemma np_index_in_range {A} (a : list A) (i : Z) :
  - Z.of_nat (length a) ≤ i < Z.of_nat (length a) → ∃ x, np_index a i = Ok x.
Proof.
  intros Hi. destruct (lookup_lt_is_Some_2 a (Z.to_nat (i mod Z.of_nat (length a))))
    as [x Hx].
  { pose proof (Z.mod_pos_bound i (Z.of_nat (length a))). lia. }
  exists x. by apply np_index_Ok.
Qed.

Lemma np_index_Raise {A} (a : list A) (i : Z) e :
  np_index a i = Raise e →
  e = IndexError ∧ ¬ (- Z.of_nat (length a) ≤ i < Z.of_nat (length a)).
Proof.
  intros H. split.
  - unfold np_index in H. destruct (_ && _); [|by injection H].
    destruct (a !! _); [done|by injection H].
  - intros Hi. destruct (np_index_in_range a i Hi) as [x Hx]. congruence.
Qed.

Section single_block_cells.
Variables (ms : list (string * h5obj)) (d w : nat).
Variables (prows : list (list F64.t)) (crows : list (list Z)).
Hypothesis points_data : assoc "points" ms = Some (FloatData2 d prows).
Hypothesis conn_data : assoc "connectivity" ms = Some (IntData2 w crows).

Lemma construct_cells_single_data :
  construct_cells (Group ms)
  = (cs ← rmap (rmap (np_index prows)) crows; Ok (Some (CellArray w d cs))).
Proof.
  rewrite (construct_cells_single ms _ points_data). unfold getitem.
  rewrite conn_data. unfold gather. simpl.
  by destruct (rmap (rmap (np_index prows)) crows).
Qed.

(** With every connectivity entry a valid position of the Point Array, the
    Cell Array of a single Block has one cell per connectivity row, the
    row's width as vertices per cell and the points' width as dimension,
    and vertex [k] of cell [j] is the point at [conn[j][k]], counted from
    the end when negative. *)
Theorem single_block_cells_in_range :
  (∀ row i, row ∈ crows → i ∈ row →
     - Z.of_nat (length prows) ≤ i < Z.of_nat (length prows)) →
  ∃ cs,
    construct_cells (Group ms) = Ok (Some (CellArray w d cs)) ∧
    shape (CellArray w d cs) = (length crows, w, d) ∧
    Forall2 (Forall2 (λ i pt,
               prows !! Z.to_nat (i mod Z.of_nat (length prows)) = Some pt)) crows cs.
Proof.
  intros Hrange.
  destruct (rmap_total (rmap (np_index prows)) crows) as [cs Hcs].
  { intros row Hrow. apply rmap_total. intros i Hi.
    by apply np_index_in_range, (Hrange row). }
  exists cs. rewrite construct_cells_single_data, Hcs. apply rmap_Ok in Hcs.
  split_and!; [done| |].
  - unfold shape. simpl. by rewrite <-(Forall2_length _ _ _ Hcs).
  - eapply Forall2_impl; [exact Hcs|]. intros row cell Hrow%rmap_Ok.
    eapply Forall2_impl; [exact Hrow|]. by intros i pt [_ ?]%np_index_Ok.
Qed.

(** A connectivity entry that is a signed 64-bit integer, which numpy uses
    as an index as it is, and lies outside the Point Array makes
    [construct_cells] raise [IndexError].  (An unsigned entry from 2^63 on
    is not covered: numpy reads it as the negative index it wraps to.) *)
Theorem single_block_index_error row i :
  row ∈ crows → i ∈ row →
  - 2 ^ 63 ≤ i < 2 ^ 63 →
  ¬ (- Z.of_nat (length prows) ≤ i < Z.of_nat (length prows)) →
  construct_cells (Group ms) = Raise IndexError.
Proof.
  intros Hrow Hi _ Hout. rewrite construct_cells_single_data.
  destruct (rmap (rmap (np_index prows)) crows) as [cs|e] eqn:E; simpl.
  - exfalso. apply rmap_Ok in E.
    apply list_elem_of_lookup in Hrow as [j Hj].
    destruct (Forall2_lookup_l _ _ _ _ _ E Hj) as (cell & _ & Hcell%rmap_Ok).
    apply list_elem_of_lookup in Hi as [k Hk].
    destruct (Forall2_lookup_l _ _ _ _ _ Hcell Hk) as (pt & _ & [? _]%np_index_Ok).
    done.
  - apply rmap_Raise in E as (row' & _ & (i' & _ & [-> _]%np_index_Raise)%rmap_Raise).
    done.
Qed.
End single_block_cells.

Lemma single_block_cells_in_range_witness :
  ∃ cs,
    construct_cells (Group [("connectivity", IntData2 3 [[0; 1; -1]]); ("points", Ex.square)])
    = Ok (Some (CellArray 3 2 cs)) ∧
    shape (CellArray 3 2 cs) = (1, 3, 2)%nat ∧
    Forall2 (Forall2 (λ i pt,
               [[F64.zero; F64.zero]; [F64.one; F64.zero];
                [F64.zero; F64.one]; [F64.one; F64.one]]
               !! Z.to_nat (i mod 4) = Some pt)) [[0; 1; -1]] cs.
Proof.
  eapply (single_block_cells_in_range
            [("connectivity", IntData2 3 [[0; 1; -1]]); ("points", Ex.square)] 2 3
            [[F64.zero; F64.zero]; [F64.one; F64.zero];
              [F64.zero; F64.one]; [F64.one; F64.one]] [[0; 1; -1]] eq_refl eq_refl).
  intros row i ->%list_elem_of_singleton Hi. simpl.
  repeat (apply elem_of_cons in Hi as [->|Hi]); try lia. by apply elem_of_nil in Hi.
Defined.

Lemma single_block_index_error_witness :
  construct_cells (Group [("connectivity", IntData2 3 [[0; 1; 4]]); ("points", Ex.square)])
  = Raise IndexError.
Proof.
  eapply (single_block_index_error
            [("connectivity", IntData2 3 [[0; 1; 4]]); ("points", Ex.square)] 2 3
            [[F64.zero; F64.zero]; [F64.one; F64.zero];
              [F64.zero; F64.one]; [F64.one; F64.one]] [[0; 1; 4]] eq_refl eq_refl [0; 1; 4] 4).
  - apply list_elem_of_here.
  - do 2 apply list_elem_of_further. apply list_elem_of_here.
  - by vm_compute.
  - simpl. lia.
Defined.

(** ** Sub-Blocks that cannot be assembled *)

Lemma rfold_app {A B} (f : B → A → result B) (acc : B) (l1 l2 : list A) :
  rfold f acc (l1 ++ l2) = (acc' ← rfold f acc l1; rfold f acc' l2).
Proof.
  revert acc. induction l1 as [|x l1 IH]; intros acc; simpl; [done|].
  destruct (f acc x); simpl; [apply IH|done].
Qed.

Lemma construct_cells_multi_unfold (ms : list (string * h5obj)) :
  "points" ∉ ms.*1 →
  construct_cells (Group ms)
  = rfold (λ output k,
      blk ← getitem (Group ms) k;
      points ← getitem blk "points";
      conn ← getitem blk "connectivity";
      match output with
      | None => c ← gather points conn; Ok (Some c)
      | Some out => new ← gather points conn; c ← concatenate out new; Ok (Some c)
      end) None ms.*1.
Proof.
  intros Hmulti. unfold construct_cells. simpl. by rewrite bool_decide_eq_false_2.
Qed.

Lemma concat_cell_arrays_shape cs c0 :
  c0 ∈ cs →
  (∀ c c', c ∈ cs → c' ∈ cs → nvert c = nvert c' ∧ dim c = dim c') →
  ∃ out, concat_cell_arrays cs = Some out ∧ nvert out = nvert c0 ∧ dim out = dim c0.
Proof.
  destruct cs as [|c1 cs']; [by intros ?%elem_of_nil|]. intros Hc0 Huni.
  eexists. split; [done|]. simpl. apply Huni; [apply list_elem_of_here|done].
Qed.

Section block_errors.
Variables (ms pre post : list (string * h5obj)) (k : string) (blk : h5obj).
Variable cs : list cell_array.
Hypothesis names_distinct : NoDup ms.*1.
Hypothesis multi : "points" ∉ ms.*1.
Hypothesis position : ms = pre ++ (k, blk) :: post.
Hypothesis earlier_blocks : Forall2 (λ m c, block_cells m.2 = Ok c) pre cs.
Hypothesis uniform : ∀ c c', c ∈ cs → c' ∈ cs → nvert c = nvert c' ∧ dim c = dim c'.

Lemma construct_cells_upto :
  construct_cells (Group ms)
  = rfold (λ output k,
      blk ← getitem (Group ms) k;
      points ← getitem blk "points";
      conn ← getitem blk "connectivity";
      match output with
      | None => c ← gather points conn; Ok (Some c)
      | Some out => new ← gather points conn; c ← concatenate out new; Ok (Some c)
      end) (concat_cell_arrays cs) (k :: post.*1).
Proof.
  rewrite construct_cells_multi_unfold by done.
  assert (ms.*1 = pre.*1 ++ k :: post.*1) as Hnames by (by rewrite position, fmap_app).
  rewrite Hnames, rfold_app.
  assert (∃ w d, Forall (λ c, nvert c = w ∧ dim c = d) cs) as (w & d & Hwd).
  { destruct cs as [|c0 cs'] eqn:E; [by exists 0%nat, 0%nat|].
    exists (nvert c0), (dim c0). apply Forall_forall. intros c Hc.
    destruct (uniform c0 c) as [-> ->]; [apply list_elem_of_here|done|done]. }
  rewrite (construct_cells_loop ms names_distinct w d pre cs None); try done.
  intros x Hx. rewrite position. apply elem_of_app. by left.
Qed.

(** The first sub-Block whose points cannot be gathered through its
    connectivity (an entry is missing, or an index is out of range) makes
    [construct_cells] raise that sub-Block's exception. *)
Theorem block_error_propagates e :
  block_cells blk = Raise e → construct_cells (Group ms) = Raise e.
Proof.
  intros Hblk. rewrite construct_cells_upto. simpl.
  rewrite (assoc_NoDup ms k blk) by (done || rewrite position; apply elem_of_app;
    right; apply list_elem_of_here). simpl.
  unfold block_cells in Hblk.
  destruct (getitem blk "points") as [points|]; simpl in *; [|by inversion Hblk].
  destruct (getitem blk "connectivity") as [conn|]; simpl in *; [|by inversion Hblk].
  rewrite Hblk. by destruct (concat_cell_arrays cs).
Qed.

(** A sub-Block whose Cell Array has another number of vertices per cell or
    another dimension than the sub-Blocks before it makes [construct_cells]
    raise [ValueError]. *)
Theorem mixed_blocks_value_error c c0 :
  block_cells blk = Ok c → c0 ∈ cs →
  nvert c0 ≠ nvert c ∨ dim c0 ≠ dim c →
  construct_cells (Group ms) = Raise ValueError.
Proof.
  intros Hblk Hc0 Hne. rewrite construct_cells_upto. simpl.
  rewrite (assoc_NoDup ms k blk) by (done || rewrite position; apply elem_of_app;
    right; apply list_elem_of_here). simpl.
  unfold block_cells in Hblk.
  destruct (getitem blk "points") as [points|]; simpl in *; [|done].
  destruct (getitem blk "connectivity") as [conn|]; simpl in *; [|done].
  rewrite Hblk.
  destruct (concat_cell_arrays_shape cs c0 Hc0 uniform) as (out & -> & Hn & Hd).
  simpl. unfold concatenate.
  rewrite bool_decide_eq_false_2; [done|].
  intros [? ?]. destruct Hne; congruence.
Qed.
End block_errors.

Lemma block_error_propagates_witness :
  construct_cells (Group [("b0", Ex.block [0; 1; 2] None);
                          ("b1", Group [("connectivity", IntData2 3 [[0; 1; 2]])])])
  = Raise (KeyError "points").
Proof.
  apply (block_error_propagates
           [("b0", Ex.block [0; 1; 2] None);
            ("b1", Group [("connectivity", IntData2 3 [[0; 1; 2]])])]
           [("b0", Ex.block [0; 1; 2] None)] [] "b1"
           (Group [("connectivity", IntData2 3 [[0; 1; 2]])])
           [CellArray 3 2 [[[F64.zero; F64.zero]; [F64.one; F64.zero]; [F64.zero; F64.one]]]]).
  - refine (bool_decide_unpack _ _). by vm_compute.
  - refine (bool_decide_unpack _ _). by vm_compute.
  - reflexivity.
  - repeat constructor.
  - by intros c c' ->%list_elem_of_singleton ->%list_elem_of_singleton.
  - reflexivity.
Defined.

Lemma mixed_blocks_value_error_witness :
  construct_cells
    (Group [("b0", Ex.block [0; 1; 2] None);
            ("b1", Group [("connectivity", IntData2 2 [[0; 1]]); ("points", Ex.square)])])
  = Raise ValueError.
Proof.
  apply (mixed_blocks_value_error
           [("b0", Ex.block [0; 1; 2] None);
            ("b1", Group [("connectivity", IntData2 2 [[0; 1]]); ("points", Ex.square)])]
           [("b0", Ex.block [0; 1; 2] None)] [] "b1"
           (Group [("connectivity", IntData2 2 [[0; 1]]); ("points", Ex.square)])
           [CellArray 3 2 [[[F64.zero; F64.zero]; [F64.one; F64.zero]; [F64.zero; F64.one]]]])
    with (c := CellArray 2 2 [[[F64.zero; F64.zero]; [F64.one; F64.zero]]])
         (c0 := CellArray 3 2 [[[F64.zero; F64.zero]; [F64.one; F64.zero]; [F64.zero; F64.one]]]).
  - refine (bool_decide_unpack _ _). by vm_compute.
  - refine (bool_decide_unpack _ _). by vm_compute.
  - reflexivity.
  - repeat constructor.
  - by intros c c' ->%list_elem_of_singleton ->%list_elem_of_singleton.
  - reflexivity.
  - apply list_elem_of_here.
  - left. simpl. lia.
Defined.

(** ** The report of a field mismatch *)

Lemma elem_of_where_ (mask : list bool) j : j ∈ where_ mask ↔ mask !! j = Some true.
Proof.
  unfold where_. rewrite list_elem_of_fmap. split.
  - intros ([i b] & -> & [Hb Hin]%list_elem_of_filter). simpl in *. subst b.
    apply list_elem_of_lookup in Hin as [n [Hi Hm]%lookup_zip_Some].
    apply lookup_seq in Hi as [-> _]. done.
  - intros Hj. exists (j, true). split; [done|]. apply list_elem_of_filter. split; [done|].
    apply list_elem_of_lookup. exists j. apply lookup_zip_Some. split; [|done].
    apply lookup_seq. split; [done|]. by eapply lookup_lt_Some.
Qed.

Lemma take_lookup_total `{Inhabited A} (a : list A) idx :
  Forall (λ i, (i < length a)%nat) idx → take a idx = Ok ((λ i, a !!! i) <$> idx).
Proof.
  intros Hidx. apply take_Ok. apply Forall2_fmap_r, Forall_Forall2_diag.
  eapply Forall_impl; [done|]. intros i Hi. simpl. by apply list_lookup_lookup_total_lt.
Qed.

Section mismatch_branch.
Variables (file1 file2 : string) (cells1 cells2 : cell_array).
Variables (index1 index2 : list nat) (field1 field2 : h5obj) (field : string).
Variables (ks2 : list string) (a1 a2 v1 v2 : list F64.t).
Variables s1 s2 : list (list (list F64.t)).
Hypothesis keys2 : keys field2 = Ok ks2.
Hypothesis present : field ∈ ks2.
Hypothesis data1 : getitem field1 field = Ok (FloatData1 a1).
Hypothesis data2 : getitem field2 field = Ok (FloatData1 a2).
Hypothesis same_count : length index1 = length index2.
Hypothesis values1 : take a1 index1 = Ok v1.
Hypothesis values2 : take a2 index2 = Ok v2.
Hypothesis sorted1 : take (cells cells1) index1 = Ok s1.
Hypothesis sorted2 : take (cells cells2) index2 = Ok s2.

Lemma offending_in_range (l : list nat) :
  length l = length v1 ∨ length l = length v2 →
  Forall (λ i, (i < length l)%nat) (where_ (zip_with exceeds v1 v2)).
Proof.
  intros Hl. apply Forall_forall. intros j Hj%elem_of_where_.
  apply lookup_zip_with_Some in Hj as (x & y & _ & Hx%lookup_lt_Some & Hy%lookup_lt_Some).
  destruct Hl as [-> | ->]; done.
Qed.

Lemma offending_values {A} `{Inhabited A} (a r : list A) (index : list nat) :
  length index = length v1 ∨ length index = length v2 →
  take a index = Ok r →
  ∃ p, take r (where_ (zip_with exceeds v1 v2)) = Ok p ∧
       (i ← take index (where_ (zip_with exceeds v1 v2)); take a i) = Ok p.
Proof.
  intros Hl Hr.
  destruct (take_in_range r (where_ (zip_with exceeds v1 v2))) as [p Hp].
  { rewrite (take_length _ _ _ Hr). by apply offending_in_range. }
  exists p. split; [done|].
  rewrite (take_lookup_total index) by (by apply offending_in_range). simpl.
  by eapply take_compose.
Qed.

(** The field-mismatch branch, for a field that both files hold as a
    one-dimensional dataset, one scalar per cell, and index arrays of one
    length as they are after the shape check: when some pair of reordered
    values of the field differs by more than the tolerance, the run prints
    the values of both files at exactly the positions where this happens,
    with their absolute differences, then the cells at these positions,
    then the field's name, and ends by [sys.exit()] without a message,
    which is exit status 0. *)
Theorem mismatch_report j x y :
  v1 !! j = Some x → v2 !! j = Some y → exceeds x y = true →
  let ind := where_ (zip_with exceeds v1 v2) in
  ∃ p1 p2 k1 k2,
    length v1 = length v2 ∧
    take v1 ind = Ok p1 ∧ take v2 ind = Ok p2 ∧
    take s1 ind = Ok k1 ∧ take s2 ind = Ok k2 ∧
    (∀ i, i ∈ ind ↔ ∃ a b, v1 !! i = Some a ∧ v2 !! i = Some b ∧ exceeds a b = true) ∧
    check_field file1 file2 cells1 cells2 index1 index2 field1 field2 field
    = Proc [PrintValues p1 p2 (zip_with absdiff p1 p2); PrintCells k1 k2;
            Print (field +:+ " is not the same")]
           (inl (SysExit None)) ∧
    exit_status (outcome
      (check_field file1 file2 cells1 cells2 index1 index2 field1 field2 field)) = 0.
Proof.
  intros Hx Hy Hxy ind. subst ind.
  pose proof (take_length _ _ _ values1) as Hl1.
  pose proof (take_length _ _ _ values2) as Hl2.
  destruct (offending_values a1 v1 index1) as (p1 & Hp1 & Hq1); [by left|done|].
  destruct (offending_values a2 v2 index2) as (p2 & Hp2 & Hq2); [by right|done|].
  destruct (offending_values (cells cells1) s1 index1) as (k1 & Hk1 & Hc1); [by left|done|].
  destruct (offending_values (cells cells2) s2 index2) as (k2 & Hk2 & Hc2); [by right|done|].
  assert (check_field file1 file2 cells1 cells2 index1 index2 field1 field2 field
          = Proc [PrintValues p1 p2 (zip_with absdiff p1 p2); PrintCells k1 k2;
                  Print (field +:+ " is not the same")]
                 (inl (SysExit None))) as Hrun.
  { rewrite (check_field_values _ _ _ _ _ _ _ _ _ ks2 v1 v2 keys2 present)
      by (by rewrite ?data1, ?data2).
    rewrite (any2_true exceeds v1 v2 j x y) by done. cbv zeta.
    rewrite (bind_lift_Ok _ _ p1).
    2:{ destruct (take index1 _) as [i1|]; simpl in *; [|done]. by rewrite data1. }
    rewrite (bind_lift_Ok _ _ p2).
    2:{ destruct (take index2 _) as [i2|]; simpl in *; [|done]. by rewrite data2. }
    rewrite emit_bind, (bind_lift_Ok _ _ k1), (bind_lift_Ok _ _ k2) by done.
    done. }
  exists p1, p2, k1, k2. split_and!; try done.
  - by rewrite Hl1, Hl2.
  - intros i. rewrite elem_of_where_, lookup_zip_with_Some.
    split; [intros (a & b & ? & ? & ?)|intros (a & b & ? & ? & ?)]; by exists a, b.
  - by rewrite Hrun.
Qed.
End mismatch_branch.

Lemma mismatch_report_witness :
  let f1 := Group [("p", FloatData1 [F64.e_13; F64.one])] in
  let f2 := Group [("p", FloatData1 [F64.zero; F64.one])] in
  let c := CellArray 1 1 [[[F64.zero]]; [[F64.one]]] in
  let ind := where_ (zip_with exceeds [F64.e_13; F64.one] [F64.zero; F64.one]) in
  ∃ p1 p2 k1 k2,
    length [F64.e_13; F64.one] = length [F64.zero; F64.one] ∧
    take [F64.e_13; F64.one] ind = Ok p1 ∧ take [F64.zero; F64.one] ind = Ok p2 ∧
    take (cells c) ind = Ok k1 ∧ take (cells c) ind = Ok k2 ∧
    (∀ i, i ∈ ind ↔ ∃ a b, [F64.e_13; F64.one] !! i = Some a ∧
                            [F64.zero; F64.one] !! i = Some b ∧ exceeds a b = true) ∧
    check_field "a" "b" c c [0; 1]%nat [0; 1]%nat f1 f2 "p"
    = Proc [PrintValues p1 p2 (zip_with absdiff p1 p2); PrintCells k1 k2;
            Print ("p" +:+ " is not the same")]
           (inl (SysExit None)) ∧
    exit_status (outcome (check_field "a" "b" c c [0; 1]%nat [0; 1]%nat f1 f2 "p")) = 0.
Proof.
  intros f1 f2 c.
  refine (mismatch_report "a" "b" c c [0; 1]%nat [0; 1]%nat f1 f2 "p" ["p"]
            [F64.e_13; F64.one] [F64.zero; F64.one] [F64.e_13; F64.one] [F64.zero; F64.one]
            (cells c) (cells c) eq_refl _ eq_refl eq_refl eq_refl eq_refl eq_refl eq_refl
            eq_refl 0%nat F64.e_13 F64.zero eq_refl eq_refl _).
  - apply list_elem_of_here.
  - by vm_compute.
Defined.

(** ** Sort keys *)

Lemma byte_at_spec b k r :
  0 ≤ r < 8 → Z.testbit (F64.byte_at b k) r = Z.testbit b (8 * Z.of_nat k + r).
Proof.
  intros Hr. unfold F64.byte_at. rewrite Z.land_spec, Z.shiftr_spec by lia.
  change 255 with (Z.ones 8). rewrite Z.ones_spec_low, andb_true_r by lia.
  f_equal. lia.
Qed.

Lemma tobytes_length x : length (F64.tobytes x) = 8%nat.
Proof. done. Qed.

Lemma tobytes_inj a b :
  0 ≤ a < 2 ^ 64 → 0 ≤ b < 2 ^ 64 → F64.tobytes a = F64.tobytes b → a = b.
Proof.
  intros Ha Hb H. apply Z.bits_inj'. intros n Hn. destruct (decide (n < 64)) as [Hlt|Hge].
  - pose proof (Z.div_mod n 8 ltac:(lia)) as Hdm.
    pose proof (Z.mod_pos_bound n 8 ltac:(lia)) as Hr.
    pose proof (Z.div_pos n 8 Hn ltac:(lia)) as Hq.
    assert (n `div` 8 < 8) as Hq8 by (apply Z.div_lt_upper_bound; lia).
    assert (F64.byte_at a (Z.to_nat (n `div` 8)) = F64.byte_at b (Z.to_nat (n `div` 8)))
      as Hbyte.
    { apply (f_equal (.!! Z.to_nat (n `div` 8))) in H. unfold F64.tobytes in H.
      rewrite !list_lookup_fmap, lookup_seq_lt in H by lia. by injection H. }
    replace n with (8 * Z.of_nat (Z.to_nat (n `div` 8)) + n `mod` 8) by lia.
    by rewrite <- !byte_at_spec, Hbyte by done.
  - rewrite <- (Z.mod_small a (2 ^ 64)), <- (Z.mod_small b (2 ^ 64)) by done.
    by rewrite !Z.mod_pow2_bits_high by lia.
Qed.

Lemma bind_tobytes_length (l : list F64.t) :
  length (l ≫= F64.tobytes) = (8 * length l)%nat.
Proof.
  induction l as [|x l IH]; [done|].
  rewrite bind_cons, length_app, tobytes_length, IH. cbn [length]. lia.
Qed.

Lemma bind_tobytes_inj (l l' : list F64.t) :
  length l = length l' →
  Forall (λ x, 0 ≤ x < 2 ^ 64) l → Forall (λ x, 0 ≤ x < 2 ^ 64) l' →
  l ≫= F64.tobytes = l' ≫= F64.tobytes → l = l'.
Proof.
  revert l'. induction l as [|x l IH]; intros [|x' l']; try done.
  intros [= Hlen] [Hx Hl]%Forall_cons [Hx' Hl']%Forall_cons H.
  rewrite !bind_cons in H.
  apply app_inj_1 in H as [H1 H2]; [|by rewrite !tobytes_length].
  f_equal; [by apply tobytes_inj|by apply IH].
Qed.

Lemma cell_tobytes_inj (c c' : list (list F64.t)) :
  Forall2 (λ r r', length r = length r') c c' →
  Forall (Forall (λ x, 0 ≤ x < 2 ^ 64)) c →
  Forall (Forall (λ x, 0 ≤ x < 2 ^ 64)) c' →
  cell_tobytes c = cell_tobytes c' → c = c'.
Proof.
  unfold cell_tobytes. induction 1 as [|r r' c c' Hr _ IH]; [done|].
  intros [Hx Hl]%Forall_cons [Hx' Hl']%Forall_cons H.
  rewrite !bind_cons in H.
  apply app_inj_1 in H as [H1 H2]; [|by rewrite !bind_tobytes_length, Hr].
  f_equal; [by apply bind_tobytes_inj|by apply IH].
Qed.

(** The sort key of a cell is its bytes: two cells of one shape whose
    coordinates are 64-bit patterns and that differ in some bit have
    different keys, so cells without duplicates give keys without
    duplicates. *)
Theorem distinct_cells_distinct_keys (cs : list (list (list F64.t))) (w d : nat) :
  Forall (λ c, length c = w ∧ Forall (λ r, length r = d) c) cs →
  Forall (Forall (Forall (λ x, 0 ≤ x < 2 ^ 64))) cs →
  NoDup cs → NoDup (cell_tobytes <$> cs).
Proof.
  intros Hshape Hbits Hnd. apply NoDup_fmap_2_strong; [|done].
  intros c c' Hc Hc' Hkey. apply cell_tobytes_inj; [| | |done].
  - pose proof (proj1 (Forall_forall _ _) Hshape c Hc) as [Hw Hd].
    pose proof (proj1 (Forall_forall _ _) Hshape c' Hc') as [Hw' Hd'].
    apply Forall2_same_length_lookup. split; [congruence|].
    intros i r r' Hi Hi'.
    pose proof (Forall_lookup_1 _ _ _ _ Hd Hi) as Hr. simpl in Hr.
    pose proof (Forall_lookup_1 _ _ _ _ Hd' Hi') as Hr'. simpl in Hr'. congruence.
  - by apply (proj1 (Forall_forall _ _) Hbits c).
  - by apply (proj1 (Forall_forall _ _) Hbits c').
Qed.

Lemma distinct_cells_distinct_keys_witness :
  NoDup (cell_tobytes <$> [[[F64.zero; F64.zero]; [F64.one; F64.zero]];
                            [[F64.zero; F64.zero]; [F64.zero; F64.one]]]).
Proof.
  apply (distinct_cells_distinct_keys _ 2 2).
  - repeat constructor.
  - refine (bool_decide_unpack _ _). by vm_compute.
  - refine (bool_decide_unpack _ _). by vm_compute.
Defined.

(** ** Fields that every sub-Block holds *)

Lemma field_values_length_eq f (bf : dict) n :
  NoDup bf.*1 → Forall (λ e, length e.2 = n) bf → f ∈ bf.*1 →
  length (field_values f bf) = n.
Proof.
  unfold field_values. induction bf as [|[k v] bf IH]; csimpl; [by intros _ _ ?%elem_of_nil|].
  intros [Hk Hnd]%NoDup_cons [Hv Hbf]%Forall_cons Hin. simpl in *.
  rewrite length_app. case_decide as Hkf.
  - subst k. pose proof (field_values_absent f bf Hk) as Habs.
    unfold field_values in Habs. rewrite Habs. simpl. lia.
  - simpl. apply IH; [done..|]. apply elem_of_cons in Hin as [?|?]; [congruence|done].
Qed.

Lemma field_values_total_eq f cs bfs :
  one_value_per_cell cs bfs → Forall (λ bf : dict, f ∈ bf.*1) bfs →
  length (field_values f (concat bfs)) = length (c ← cs; cells c).
Proof.
  rewrite field_values_concat.
  induction 1 as [|c bf cs bfs [Hnd Hlen] _ IH]; csimpl; [done|].
  intros [Hf Hall]%Forall_cons. rewrite !length_app.
  by rewrite (field_values_length_eq f bf _ Hnd Hlen Hf), IH.
Qed.

Section fully_populated.
Variables (ms : list (string * h5obj)) (cs : list cell_array) (bfs : list dict).
Variable f : string.
Hypothesis names_distinct : NoDup ms.*1.
Hypothesis multi : "points" ∉ ms.*1.
Hypothesis some_block : ms ≠ [].
Hypothesis blocks_cells : Forall2 (λ m c, block_cells m.2 = Ok c) ms cs.
Hypothesis blocks_fields : Forall2 (λ m bf, block_fields m.2 = Ok bf) ms bfs.
Hypothesis uniform : ∀ c c', c ∈ cs → c' ∈ cs → nvert c = nvert c' ∧ dim c = dim c'.
Hypothesis per_cell : one_value_per_cell cs bfs.
Hypothesis everywhere : Forall (λ bf : dict, f ∈ bf.*1) bfs.

(** In a multi-Block mesh whose fields hold one value per cell of their
    sub-Block, a field that every sub-Block holds comes out of
    [construct_fields] as the sub-Blocks' values in Block order, one value
    per cell of the Cell Array that [construct_cells] assembles: indexing it
    with any positions of that Cell Array does not raise. *)
Theorem fully_populated_field_fits :
  ∃ c v,
    construct_cells (Group ms) = Ok (Some c) ∧
    (fd ← construct_fields (Group ms); getitem fd f) = Ok (FloatData1 v) ∧
    v = (bf ← bfs; field_values f bf) ∧
    length v = length (cells c) ∧
    ∀ index r, take (cells c) index = Ok r → ∃ r', take v index = Ok r'.
Proof.
  pose proof (construct_cells_multi ms names_distinct cs multi blocks_cells uniform) as Hc.
  pose proof (construct_fields_multi ms names_distinct bfs multi blocks_fields) as Hf.
  destruct ms as [|m0 ms'] eqn:Ems; [done|]. rewrite <- Ems in *.
  destruct cs as [|c0 cs'] eqn:Ecs.
  { apply Forall2_length in blocks_cells. by rewrite Ems in blocks_cells. }
  rewrite <- Ecs in *.
  destruct (concat_cell_arrays_nonempty cs 0 c0) as (c & Hcat & Hcells); [by rewrite Ecs|].
  assert (length (field_values f (concat bfs)) = length (cells c)) as Hlen.
  { rewrite Hcells. by apply field_values_total_eq. }
  exists c, (field_values f (concat bfs)). split_and!.
  - by rewrite Hc, Hcat.
  - rewrite Hf. unfold dict_obj, concat_fields. simpl. rewrite assoc_dict_obj, assoc_graph.
    rewrite decide_True; [done|]. apply elem_of_first_occurrences.
    destruct bfs as [|bf0 bfs'] eqn:Ebfs.
    { apply Forall2_length in blocks_fields. by rewrite Ems in blocks_fields. }
    apply Forall_cons in everywhere as [Hin _]. simpl. rewrite fmap_app.
    apply elem_of_app. by left.
  - apply field_values_concat.
  - done.
  - intros index r Hr%take_Ok. apply take_in_range. apply Forall_forall.
    intros i Hi. apply list_elem_of_lookup in Hi as [n Hn].
    destruct (Forall2_lookup_l _ _ _ _ _ Hr Hn) as (x & _ & Hx).
    apply lookup_lt_Some in Hx. lia.
Qed.
End fully_populated.

Lemma fully_populated_field_fits_witness :
  ∃ c v,
    construct_cells (Group Ex.two_blocks) = Ok (Some c) ∧
    (fd ← construct_fields (Group Ex.two_blocks); getitem fd "pressure")
      = Ok (FloatData1 v) ∧
    v = (bf ← [[("pressure", [F64.one])]; [("pressure", [F64.two])]];
         field_values "pressure" bf) ∧
    length v = length (cells c) ∧
    ∀ index r, take (cells c) index = Ok r → ∃ r', take v index = Ok r'.
Proof.
  apply (fully_populated_field_fits Ex.two_blocks
    [CellArray 3 2 [[[F64.zero; F64.zero]; [F64.one; F64.zero]; [F64.zero; F64.one]]];
     CellArray 3 2 [[[F64.one; F64.zero]; [F64.one; F64.one]; [F64.zero; F64.one]]]]
    [[("pressure", [F64.one])]; [("pressure", [F64.two])]] "pressure").
  - refine (bool_decide_unpack _ _). by vm_compute.
  - refine (bool_decide_unpack _ _). by vm_compute.
  - done.
  - repeat constructor.
  - repeat constructor.
  - intros c c' Hc Hc'.
    repeat (apply elem_of_cons in Hc as [->|Hc]); try (by apply elem_of_nil in Hc);
    repeat (apply elem_of_cons in Hc' as [->|Hc']); try (by apply elem_of_nil in Hc');
    by split.
  - repeat constructor; apply not_elem_of_nil.
  - repeat constructor.
Defined.

(** ** The tolerance test does not depend on the order of the files *)

Lemma SFabs_binary_round s m e :
  SFabs (binary_round prec emax s m e) = SFabs (binary_round prec emax false m e).
Proof.
  unfold binary_round, binary_round_aux.
  destruct (shl_align m e _) as [mz ez].
  destruct (shr_fexp prec emax (Z.pos mz) ez loc_Exact) as [mrs' e'].
  destruct (shr_fexp prec emax _ e' loc_Exact) as [mrs'' e''].
  destruct (shr_m mrs''); [done| |done]. by destruct (_ <=? _).
Qed.

Lemma SFabs_binary_normalize m e :
  SFabs (binary_normalize prec emax (- m) e false)
  = SFabs (binary_normalize prec emax m e false).
Proof.
  destruct m as [|p|p]; simpl; [done| |]; by rewrite (SFabs_binary_round true).
Qed.

Lemma SFabs_sub_comm x y :
  SFabs (SFsub prec emax x y) = SFabs (SFsub prec emax y x).
Proof.
  destruct x as [sx|sx| |sx mx ex], y as [sy|sy| |sy my ey]; simpl;
    try done; try (by destruct sx, sy).
  change IntDef.Z.min with Z.min. rewrite (Z.min_comm ey ex).
  rewrite <- SFabs_binary_normalize. f_equal. f_equal. lia.
Qed.

Lemma any2_comm {A} (f : A → A → bool) (x y : list A) :
  (∀ a b, f a b = f b a) → any2 f x y = any2 f y x.
Proof.
  intros Hf. unfold any2. revert y.
  induction x as [|a x IH]; intros [|b y]; simpl; try done. by rewrite Hf, IH.
Qed.

(** The absolute difference of two values, and with it the test of one pair
    of values and of two value sequences against the tolerance, is the same
    whichever file comes first. *)
Theorem tolerance_test_symmetric :
  (∀ a b, absdiff a b = absdiff b a) ∧
  (∀ a b, exceeds a b = exceeds b a) ∧
  (∀ v1 v2, any2 exceeds v1 v2 = any2 exceeds v2 v1).
Proof.
  assert (∀ a b, absdiff a b = absdiff b a) as Habs.
  { intros a b. unfold absdiff, F64.sub. apply SFabs_sub_comm. }
  assert (∀ a b, exceeds a b = exceeds b a) as Hex.
  { intros a b. unfold exceeds. by rewrite Habs. }
  split_and!; [done..|]. intros v1 v2. by apply any2_comm.
Qed.

(** ** The message of [sys.exit] *)

Lemma bind_exit_msg {A B} (m : proc A) (k : A → proc B) (D : string) :
  (∀ msg, outcome m = inl (SysExit (Some msg)) → msg = D) →
  (∀ a msg, outcome (k a) = inl (SysExit (Some msg)) → msg = D) →
  ∀ msg, outcome (m ≫= k) = inl (SysExit (Some msg)) → msg = D.
Proof.
  intros Hm Hk msg. unfold mbind, proc_bind.
  destruct (outcome m) as [h|a] eqn:E; simpl; [|by apply Hk].
  intros [= ->]. by apply Hm.
Qed.

Lemma lift_exit_msg {A} (r : result A) (D : string) :
  ∀ msg, outcome (lift r) = inl (SysExit (Some msg)) → msg = D.
Proof. by destruct r. Qed.

Lemma h5py_File_exit_msg fs path (D : string) :
  ∀ msg, outcome (h5py_File fs path) = inl (SysExit (Some msg)) → msg = D.
Proof.
  unfold h5py_File. apply bind_exit_msg; [done|]. intros _. apply lift_exit_msg.
Qed.

Lemma for_each_exit_msg {A} (l : list A) (body : A → proc unit) (D : string) :
  (∀ x msg, outcome (body x) = inl (SysExit (Some msg)) → msg = D) →
  ∀ msg, outcome (for_each l body) = inl (SysExit (Some msg)) → msg = D.
Proof.
  intros Hbody. induction l as [|x l IH]; simpl; [done|].
  apply bind_exit_msg; [apply Hbody|]. by intros _.
Qed.

Lemma check_field_exit_msg file1 file2 c1 c2 index1 index2 field1 field2 field :
  ∀ msg,
    outcome (check_field file1 file2 c1 c2 index1 index2 field1 field2 field)
      = inl (SysExit (Some msg)) →
    msg = different_msg file1 file2.
Proof.
  unfold check_field. apply bind_exit_msg; [apply lift_exit_msg|]. intros ks2.
  case_bool_decide.
  - apply bind_exit_msg; [done|]. by intros _ msg [= <-].
  - do 2 (apply bind_exit_msg; [apply lift_exit_msg|]; intros ?).
    destruct (any2 exceeds _ _); [|done].
    do 2 (apply bind_exit_msg; [apply lift_exit_msg|]; intros ?).
    apply bind_exit_msg; [done|]. intros _.
    do 2 (apply bind_exit_msg; [apply lift_exit_msg|]; intros ?).
    apply bind_exit_msg; [done|]. intros _.
    apply bind_exit_msg; [done|]. by intros _.
Qed.

(** Whatever the two files hold, the only message a comparison ever hands
    to [sys.exit] is that the two files are different: a run that exits
    with a message exits with this one, whose status is 1; every other
    abnormal end is [sys.exit()] without a message or an uncaught
    exception. *)
Theorem exit_message_is_different argsort fs (file1 file2 : string) :
  (∀ msg, outcome (compare_meshes argsort fs file1 file2) = inl (SysExit (Some msg)) →
     msg = different_msg file1 file2) ∧
  (exit_status (outcome (compare_meshes argsort fs file1 file2)) = 1 ↔
   outcome (compare_meshes argsort fs file1 file2)
     = inl (SysExit (Some (different_msg file1 file2))) ∨
   ∃ e, outcome (compare_meshes argsort fs file1 file2) = inl (Uncaught e)).
Proof.
  assert (∀ msg, outcome (compare_meshes argsort fs file1 file2) = inl (SysExit (Some msg)) →
     msg = different_msg file1 file2) as Hmsg.
  { unfold compare_meshes.
    apply bind_exit_msg; [apply h5py_File_exit_msg|]; intros root1.
    apply bind_exit_msg; [apply lift_exit_msg|]; intros mesh1.
    apply bind_exit_msg; [apply h5py_File_exit_msg|]; intros root2.
    apply bind_exit_msg; [apply lift_exit_msg|]; intros mesh2.
    do 4 (apply bind_exit_msg; [apply lift_exit_msg|]; intros ?).
    destruct a as [c1|]; [|done]. destruct a0 as [c2|]; [|done].
    case_bool_decide.
    { apply bind_exit_msg; [done|]. intros _.
      apply bind_exit_msg; [done|]. by intros _ msg [= <-]. }
    do 2 (apply bind_exit_msg; [apply lift_exit_msg|]; intros ?).
    destruct (any2 _ _ _).
    { apply bind_exit_msg; [done|]. by intros _ msg [= <-]. }
    do 3 (apply bind_exit_msg; [apply lift_exit_msg|]; intros ?).
    apply bind_exit_msg; [|done].
    apply for_each_exit_msg. intros f. apply check_field_exit_msg. }
  split; [done|].
  destruct (outcome (compare_meshes argsort fs file1 file2)) as [[[msg|]|e]|[]] eqn:E;
    simpl.
  - rewrite (Hmsg msg eq_refl). split; [by left|done].
  - split; [done|]. by intros [?|[? ?]].
  - split; [|done]. intros _. right. by exists e.
  - split; [done|]. by intros [?|[? ?]].
Qed.
